(** * pyseis: topography-corrected distances and windowed source tracking

    A shallow embedding of [bin/spatial_distance.py] and
    [pyseis/spatial_track.py].

    Conventions of the embedding
    - Python [int] is [Z]; Python/NumPy [float64] is idealised as a real
      number ([R]): rounding, overflow and signed zeros are not represented.
      The only non-number a result can hold, the [np.nan] marker of a
      distance map, is a constructor of its own ([NaN]).
    - A Python exception is a value of [exception]; a function that can raise
      returns a [result] (an error monad with [x <- m ;; k]).
    - NumPy arrays are lists; a 2-D array is a list of rows.
    - Collaborators that are not code of this repository (the rasterio
      dataset, [scipy.optimize.minimize]) are taken as parameters. *)

From Stdlib Require Import String.
From Stdlib Require Import Reals Lra Lia ZArith List Bool Psatz.
Import ListNotations.

Local Open Scope R_scope.

(* ===================================================================== *)
(** ** Exceptions and the error monad *)
(* ===================================================================== *)

Inductive exception : Type :=
| ValueError (msg : string)
| IndexError
| ZeroDivisionError
| OverflowError.

Definition result (A : Type) : Type := (exception + A)%type.

Definition ret {A : Type} (a : A) : result A := inr a.
Definition raise {A : Type} (e : exception) : result A := inl e.

Definition bind {A B : Type} (m : result A) (k : A -> result B) : result B :=
  match m with
  | inl e => inl e
  | inr a => k a
  end.

Notation "x <- m ;; k" := (bind m (fun x => k))
  (at level 61, m at next level, right associativity).

(** [[f(a) for a in l]], stopping at the first exception. *)
Fixpoint mapM {A B : Type} (f : A -> result B) (l : list A) : result (list B) :=
  match l with
  | [] => ret []
  | a :: l' => b <- f a ;; bs <- mapM f l' ;; ret (b :: bs)
  end.

(* ===================================================================== *)
(** ** Python and NumPy primitives *)
(* ===================================================================== *)

Module Np.

(** [range(n)] for a Python int [n] (empty when [n <= 0]). *)
Definition range (n : Z) : list Z :=
  map Z.of_nat (seq 0 (Z.to_nat n)).

(** [np.arange(lo, hi)] on ints. *)
Definition arange (lo hi : Z) : list Z :=
  map (fun k => (lo + Z.of_nat k)%Z) (seq 0 (Z.to_nat (hi - lo))).

(** Bound of a slice: a negative index counts from the end, and the result
    is clipped to [0, len]. *)
Definition slice_index (len i : Z) : Z :=
  if (i <? 0)%Z then Z.max (i + len) 0 else Z.min i len.

(** [l[start:stop]]. *)
Definition slice {A : Type} (l : list A) (start stop : Z) : list A :=
  let len := Z.of_nat (length l) in
  let s := slice_index len start in
  let e := slice_index len stop in
  firstn (Z.to_nat (e - s)) (skipn (Z.to_nat s) l).

(** [np.sum]. *)
Definition sum (l : list R) : R := fold_right Rplus 0 l.

(** [np.mean] of a non-empty array. *)
Definition mean (l : list R) : R := sum l / INR (length l).

(** [np.std]: the population standard deviation. *)
Definition std (l : list R) : R :=
  let m := mean l in
  sqrt (mean (map (fun v => (v - m) ^ 2) l)).

(** [np.diff]: consecutive differences [l[i+1] - l[i]]. *)
Fixpoint diff (l : list R) : list R :=
  match l with
  | a :: (b :: _) as tl => (b - a) :: diff tl
  | _ => []
  end.

(** [np.linspace(start, stop, num)] for [num >= 0]: [arange(num) * step +
    start] with [step = (stop - start) / (num - 1)]; a single sample is
    [start].  (NumPy then stores [stop] in the last slot when [num > 1];
    on real numbers that slot already holds [stop], see [linspace_last].) *)
Definition linspace_nat (start stop : R) (num : nat) : list R :=
  let div := (num - 1)%nat in
  let step := (stop - start) / INR div in
  map (fun k => if Nat.eqb div 0 then INR k * (stop - start) + start
                else INR k * step + start)
      (seq 0 num).

(** [np.linspace] with a Python int for [num]: a negative [num] raises. *)
Definition linspace (start stop : R) (num : Z) : result (list R) :=
  if (num <? 0)%Z
  then raise (ValueError "Number of samples must be non-negative.")
  else ret (linspace_nat start stop (Z.to_nat num)).

(** Read of [a[k]] with an int index that may fall outside [a] (value 0
    there); used to write the correlation sums. *)
Definition getZ (a : list R) (k : Z) : R :=
  if (k <? 0)%Z then 0 else nth (Z.to_nat k) a 0.

(** [np.correlate(a, v, "full")]: entry [m] is [sum_n a[n + k] * v[n]] with
    [k = m - (len(v) - 1)], for [m = 0 .. len(a) + len(v) - 2]; empty
    inputs raise. *)
Definition correlate_full (a v : list R) : result (list R) :=
  match a, v with
  | [], _ => raise (ValueError "first array argument cannot be empty")
  | _, [] => raise (ValueError "second array argument cannot be empty")
  | _, _ =>
      let la := length a in
      let lv := length v in
      ret (map (fun m =>
                  sum (map (fun n =>
                              getZ a (Z.of_nat n + Z.of_nat m - (Z.of_nat lv - 1))
                              * nth n v 0)
                           (seq 0 lv)))
               (seq 0 (la + lv - 1)))
  end.

(** Largest integer not above [r]. *)
Definition floor (r : R) : Z := (up r - 1)%Z.

(** Python's [round(r)]: nearest integer, ties to the even one. *)
Definition round (r : R) : Z :=
  let f := floor r in
  let d := r - IZR f in
  if Rlt_dec d (1 / 2) then f
  else if Rlt_dec (1 / 2) d then (f + 1)%Z
  else if Z.even f then f else (f + 1)%Z.

(** [round(a / b)] where [a] is a NumPy float and [b] a Python float: a zero
    divisor gives [nan] or [inf], which [round] refuses. *)
Definition round_div (a b : R) : result Z :=
  if Req_dec_T b 0 then
    if Req_dec_T a 0
    then raise (ValueError "cannot convert float NaN to integer")
    else raise OverflowError
  else ret (round (a / b)).

(** [np.min] and [np.max]; an empty array raises. *)
Definition min (l : list R) : result R :=
  match l with
  | [] => raise (ValueError "zero-size array to reduction operation minimum which has no identity")
  | a :: l' => ret (fold_left Rmin l' a)
  end.

Definition max (l : list R) : result R :=
  match l with
  | [] => raise (ValueError "zero-size array to reduction operation maximum which has no identity")
  | a :: l' => ret (fold_left Rmax l' a)
  end.

End Np.

(* ===================================================================== *)
(** ** pyseis/spatial_track.py *)
(* ===================================================================== *)

Module Track.

(** The values of ["mean"] and ["sd"] in the returned dictionary. *)
Record stats : Type := mk_stats {
  x : list R;
  y : list R;
  a_0 : list R;
  var : list R
}.

(** The returned dictionary. *)
Record results : Type := mk_results {
  time : list R;
  mean : stats;
  sd : stats
}.

(** The six lists the window loop appends to. *)
Record accumulators : Type := mk_acc {
  mean_coordinates : list R;
  sd_coordinates : list R;
  mean_amplitudes : list R;
  sd_amplitudes : list R;
  mean_variances : list R;
  sd_variances : list R
}.

Definition empty_acc : accumulators := mk_acc [] [] [] [] [] [].

(** [cross_correlation(x, y, max_lag)] *)
Definition cross_correlation (x y : list R) (max_lag : Z)
  : result (list R * list Z) :=
  let lags := Np.arange (- max_lag) (max_lag + 1) in
  cc <- Np.correlate_full (map (fun v => v - Np.mean x) x)
                          (map (fun v => v - Np.mean y) y) ;;
  let half := (Z.of_nat (length cc) / 2)%Z in
  ret (Np.slice cc (half - max_lag) (half + max_lag + 1), lags).

(** [int((data.shape[1] - time_window) / (time_window - overlap)) + 1]:
    true division of two ints, truncated toward zero by [int]. *)
Definition num_windows (T time_window overlap : Z) : result Z :=
  if (time_window - overlap =? 0)%Z then raise ZeroDivisionError
  else ret (Z.quot (T - time_window) (time_window - overlap) + 1)%Z.

(** [cc_matrix[j] = cc]: the row has [width] entries; an array of one entry
    is broadcast, any other length is refused. *)
Definition assign_row (width : Z) (cc : list R) : result (list R) :=
  if (Z.of_nat (length cc) =? width)%Z then ret cc
  else match cc with
       | [c] => ret (repeat c (Z.to_nat width))
       | _ => raise (ValueError "could not broadcast input array")
       end.

(** [a - b] for two 1-D arrays under NumPy broadcasting: equal lengths
    subtract entry by entry, an array of one entry is stretched over the
    other, anything else is refused. *)
Definition broadcast_sub (a b : list R) : result (list R) :=
  if Nat.eqb (length a) (length b)
  then ret (map (fun p => fst p - snd p) (combine a b))
  else match a, b with
       | [a0], _ => ret (map (fun v => a0 - v) b)
       | _, [b0] => ret (map (fun v => v - b0) a)
       | _, _ => raise (ValueError "operands could not be broadcast together")
       end.

(** [objective_function(params, source_signal, distance_map)]: the sum of
    squared residuals between the observed channel and
    [np.exp(-params[0] * distance_map).sum(axis=1)]. *)
Definition objective_function (params source_signal : list R)
    (distance_map : list (list R)) : result R :=
  match params with
  | [] => raise IndexError
  | p0 :: _ =>
      let predicted_signal :=
        map (fun row => Np.sum (map (fun d => exp (- p0 * d)) row)) distance_map in
      residual <- broadcast_sub source_signal predicted_signal ;;
      ret (Np.sum (map (fun v => v ^ 2) residual))
  end.

Section SpatialTrack.

(** [minimize(objective_function, zeros(distance_map.shape[1]),
    args=(window_data[0], distance_map), method="L-BFGS-B").x], the call
    into SciPy, as a function of the reference channel and the distance
    map. *)
Variable localize : list R -> list (list R) -> result (list R).

Variable data : list (list R).
Variable distance_map : list (list R).
Variable sampling_rate : R.
Variable max_lag : Z.
Variable time_window : Z.
Variable overlap : Z.

(** [data.shape[1]] *)
Definition shape1 : Z := Z.of_nat (length (hd [] data)).

(** [data[:, start_idx:end_idx]] *)
Definition window_data (i : Z) : list (list R) :=
  let start_idx := (i * (time_window - overlap))%Z in
  let end_idx := (start_idx + time_window)%Z in
  map (fun row => Np.slice row start_idx end_idx) data.

(** The estimate the localizer returns for window [i]. *)
Definition estimate_of (i : Z) (est : list R) : Prop :=
  localize (hd [] (window_data i)) distance_map = ret est.

(** The correlation matrix of one window. *)
Definition cc_matrix (w : list (list R)) : result (list (list R)) :=
  if (max_lag * 2 + 1 <? 0)%Z
  then raise (ValueError "negative dimensions are not allowed")
  else
    mapM (fun wj =>
            p <- cross_correlation (hd [] w) wj max_lag ;;
            assign_row (max_lag * 2 + 1) (fst p))
         w.

(** One pass of the loop body for window [i]. *)
Definition window_step (i : Z) (acc : accumulators) : result accumulators :=
  let w := window_data i in
  cc <- cc_matrix w ;;
  match w with
  | [] => raise IndexError
  | w0 :: _ =>
      estimated_coords <- localize w0 distance_map ;;
      ret (mk_acc
             (acc.(mean_coordinates) ++ [Np.mean estimated_coords])
             (acc.(sd_coordinates) ++ [Np.std estimated_coords])
             (acc.(mean_amplitudes) ++ [Np.mean (concat w)])
             (acc.(sd_amplitudes) ++ [Np.std (concat w)])
             (acc.(mean_variances) ++ [Np.mean (concat cc)])
             (acc.(sd_variances) ++ [Np.std (concat cc)]))
  end.

(** [for i in range(num_windows): ...] *)
Fixpoint window_loop (ws : list Z) (acc : accumulators) : result accumulators :=
  match ws with
  | [] => ret acc
  | i :: rest => acc' <- window_step i acc ;; window_loop rest acc'
  end.

(** [spatial_track(data, coordinates, distance_map, sampling_rate, max_lag,
    time_window, overlap)] with [plot=False]. *)
Definition spatial_track : result results :=
  n <- num_windows shape1 time_window overlap ;;
  duration <- (if Req_dec_T sampling_rate 0 then raise ZeroDivisionError
               else ret (IZR shape1 / sampling_rate)) ;;
  times <- Np.linspace 0 duration n ;;
  acc <- window_loop (Np.range n) empty_acc ;;
  ret (mk_results times
         (mk_stats acc.(mean_coordinates) acc.(mean_coordinates)
                   acc.(mean_amplitudes) acc.(mean_variances))
         (mk_stats acc.(sd_coordinates) acc.(sd_coordinates)
                   acc.(sd_amplitudes) acc.(sd_variances))).

End SpatialTrack.

End Track.

(* ===================================================================== *)
(** ** bin/spatial_distance.py *)
(* ===================================================================== *)

Module Distance.

(** What the engine reads from an open [rasterio.io.DatasetReader]. *)
Record DatasetReader : Type := mk_dem {
  (** [dem.read(1).shape] *)
  shape : nat * nat;
  (** [np.isnan(dem.read(1)).any()] *)
  isnan_any : bool;
  (** [rasterio.transform.xy(dem.transform, row, col)]: centre of a cell *)
  transform_xy : nat -> nat -> R * R;
  (** [dem_array[rasterio.transform.rowcol(dem.transform, x, y)]]:
      elevation of the cell that holds the point [(x, y)] *)
  elevation : R -> R -> R;
  (** [dem.res] *)
  res : R * R;
  (** [dem.crs] and [dem.bounds], copied into every map *)
  crs : string;
  bounds : R * R * R * R
}.

(** The [dem] argument: any Python object, or a dataset. *)
Inductive dem_arg : Type :=
| NotADataset
| Dataset (dem : DatasetReader).

(** A value of a distance map: [np.nan] or a number. *)
Inductive cell : Type :=
| NaN
| Finite (r : R).

(** One entry of ['maps']. *)
Record distance_map : Type := mk_map {
  map_crs : string;
  map_ext : R * R * R * R;
  map_res : R * R;
  val : list (list cell)
}.

(** The returned dictionary [{'maps': maps, 'matrix': M}]. *)
Record distances : Type := mk_distances {
  maps : list (option distance_map);
  matrix : option (list (list R))
}.

(** [xy_dem]: the cell centres in row-major order, from
    [np.indices(dem_array.shape)] and [rasterio.transform.xy]. *)
Definition xy_dem (dem : DatasetReader) : list (R * R) :=
  flat_map (fun j => map (fun k => transform_xy dem j k) (seq 0 (snd (shape dem))))
           (seq 0 (fst (shape dem))).

(** [(min x, max x, min y, max y)] of the cell centres. *)
Definition extent (dem : DatasetReader) : result (R * R * R * R) :=
  xmin <- Np.min (map fst (xy_dem dem)) ;;
  xmax <- Np.max (map fst (xy_dem dem)) ;;
  ymin <- Np.min (map snd (xy_dem dem)) ;;
  ymax <- Np.max (map snd (xy_dem dem)) ;;
  ret (xmin, xmax, ymin, ymax).

(** The test of lines 24-27: a station coordinate beyond the extent. *)
Definition stations_outside (stations : list (R * R)) (ext : R * R * R * R)
  : result bool :=
  let '(xmin, xmax, ymin, ymax) := ext in
  sxmin <- Np.min (map fst stations) ;;
  if Rlt_dec sxmin xmin then ret true else
  sxmax <- Np.max (map fst stations) ;;
  if Rgt_dec sxmax xmax then ret true else
  symin <- Np.min (map snd stations) ;;
  if Rlt_dec symin ymin then ret true else
  symax <- Np.max (map snd stations) ;;
  if Rgt_dec symax ymax then ret true else ret false.

(** The test of lines 35-38 on [aoi_ext]. *)
Definition aoi_outside (aoi_ext ext : R * R * R * R) : bool :=
  let '(a0, a1, a2, a3) := aoi_ext in
  let '(xmin, xmax, ymin, ymax) := ext in
  if Rlt_dec a0 xmin then true else
  if Rgt_dec a1 xmax then true else
  if Rlt_dec a2 ymin then true else
  if Rgt_dec a3 ymax then true else false.

(** The mask of lines 44-45 for one cell centre. *)
Definition in_aoi (aoi_ext : R * R * R * R) (p : R * R) : bool :=
  let '(a0, a1, a2, a3) := aoi_ext in
  (if Rge_dec (fst p) a0 then true else false)
  && (if Rle_dec (fst p) a1 then true else false)
  && (if Rge_dec (snd p) a2 then true else false)
  && (if Rle_dec (snd p) a3 then true else false).

(** Lines 30-33: [aoi_ext] is [aoi], or the whole extent when [aoi] is
    [None]. *)
Definition aoi_ext_of (aoi : option (R * R * R * R)) (ext : R * R * R * R)
  : R * R * R * R :=
  match aoi with
  | None => ext
  | Some a => a
  end.

(** [aoi_array]: 1 for the cells whose centre the mask of lines 44-45
    selects.  The mask runs over [xy_dem], so the array is addressed like
    [xy_dem]: cell [(j, k)] is entry [j * shape[1] + k]. *)
Definition aoi_array (dem : DatasetReader) (aoi_ext : R * R * R * R) : list Z :=
  map (fun p => if in_aoi aoi_ext p then 1%Z else 0%Z) (xy_dem dem).

(** [z_dir[z_dir > z_int] = z_int[z_dir > z_int]] *)
Definition clip (z_dir z_int : list R) : list R :=
  map (fun p => if Rgt_dec (fst p) (snd p) then snd p else fst p)
      (combine z_dir z_int).

(** Lines 59-71 and 102-114, the same in both modes: the sample points of
    the segment and its elevation profile. *)
Definition profile (dem : DatasetReader) (topography : bool)
    (line_length : R) (p q : R * R) : result (list R * list R * list R) :=
  n <- Np.round_div line_length (fst (res dem)) ;;
  let n_int := if (n =? 0)%Z then 1%Z else n in
  xs <- Np.linspace (fst p) (fst q) n_int ;;
  ys <- Np.linspace (snd p) (snd q) n_int ;;
  let z_int := map (fun xy_pt => elevation dem (fst xy_pt) (snd xy_pt))
                   (combine xs ys) in
  z_dir <- Np.linspace (hd 0 z_int) (last z_int 0) n_int ;;
  let z_dir := if topography then clip z_dir z_int else z_dir in
  ret (xs, ys, z_dir).

(** Lines 57-75: the map value of a cell inside the AOI. *)
Definition cell_distance (dem : DatasetReader) (topography : bool)
    (xy_stat xy_cell : R * R) : result R :=
  let line_length := sqrt ((fst xy_stat - fst xy_cell) ^ 2
                           + (snd xy_stat - snd xy_cell) ^ 2) in
  pr <- profile dem topography line_length xy_stat xy_cell ;;
  let '(_, _, z_dir) := pr in
  ret (sqrt ((fst xy_stat - fst xy_cell) ^ 2
             + (snd xy_stat - snd xy_cell) ^ 2
             + Np.sum (map Rabs (Np.diff z_dir)) ^ 2)).

(** Lines 54-79 for cell [(j, k)]. *)
Definition map_cell (dem : DatasetReader) (topography : bool)
    (aoi_ext : R * R * R * R) (xy_stat : R * R) (j k : nat) : result cell :=
  let idx := (j * snd (shape dem) + k)%nat in
  if (nth idx (aoi_array dem aoi_ext) 0 =? 1)%Z then
    d <- cell_distance dem topography xy_stat (nth idx (xy_dem dem) (0, 0)) ;;
    ret (Finite d)
  else ret NaN.

(** Lines 48-84 for one station; the rows of the result are
    [np.array(distances).reshape(dem_array.shape)]. *)
Definition station_map (dem : DatasetReader) (topography : bool)
    (aoi_ext : R * R * R * R) (xy_stat : R * R) : result distance_map :=
  v <- mapM (fun j => mapM (fun k => map_cell dem topography aoi_ext xy_stat j k)
                           (seq 0 (snd (shape dem))))
            (seq 0 (fst (shape dem))) ;;
  ret (mk_map (crs dem) (bounds dem) (res dem) v).

(** Lines 97-120 for one ordered pair of [xyz_stat]. *)
Definition station_path (dem : DatasetReader) (topography : bool)
    (si sj : R * R * R) : result R :=
  let '(xi, yi, _) := si in
  let '(xj, yj, _) := sj in
  let dt := sqrt ((xj - xi) ^ 2 + (yj - yi) ^ 2) in
  pr <- profile dem topography dt (xi, yi) (xj, yj) ;;
  let '(xs, ys, z_dir) := pr in
  ret (Np.sum (map (fun d => sqrt (fst (fst d) ^ 2 + snd (fst d) ^ 2 + snd d ^ 2))
                   (combine (combine (Np.diff xs) (Np.diff ys)) (Np.diff z_dir)))).

(** Lines 92-120. *)
Definition station_matrix (dem : DatasetReader) (topography : bool)
    (stations : list (R * R)) : result (list (list R)) :=
  let xyz_stat := map (fun s => (fst s, snd s, elevation dem (fst s) (snd s)))
                      stations in
  mapM (fun si => mapM (fun sj => station_path dem topography si sj) xyz_stat)
       xyz_stat.

(** [spatial_distance(stations, dem, topography, maps, matrix, aoi)] *)
Definition spatial_distance (stations : list (R * R)) (dem : dem_arg)
    (topography maps matrix : bool) (aoi : option (R * R * R * R))
  : result distances :=
  match dem with
  | NotADataset =>
      raise (ValueError "DEM must be a rasterio.io.DatasetReader object!")
  | Dataset dem =>
      if isnan_any dem then raise (ValueError "DEM contains NaN values!") else
      ext <- extent dem ;;
      out <- stations_outside stations ext ;;
      if (out : bool)
      then raise (ValueError "Some station coordinates are outside DEM extent!")
      else
      let aoi_ext := aoi_ext_of aoi ext in
      if aoi_outside aoi_ext ext
      then raise (ValueError "AOI extent is beyond DEM extent!")
      else
      ms <- (if maps
             then mapM (fun xy_stat =>
                          m <- station_map dem topography aoi_ext xy_stat ;;
                          ret (Some m))
                       stations
             else ret (repeat None (length stations))) ;;
      M <- (if matrix
            then m <- station_matrix dem topography stations ;; ret (Some m)
            else ret None) ;;
      ret (mk_distances ms M)
  end.

End Distance.

(* ===================================================================== *)
(** ** The distance formulas as the specification words them *)
(* ===================================================================== *)

Module Spec.

(** Planar Euclidean distance [d_xy]. *)
Definition d_xy (p q : R * R) : R :=
  sqrt ((fst q - fst p) * (fst q - fst p) + (snd q - snd p) * (snd q - snd p)).

(** Sample count [n = max(1, round(d_xy / cell_size))]. *)
Definition sample_count (d cell_size : R) : nat :=
  Z.to_nat (Z.max 1 (Np.round (d / cell_size))).

(** Position of sample [k] of [n] along the segment, from 0 to 1. *)
Definition fraction (n k : nat) : R :=
  match n with
  | 0%nat | 1%nat => 0
  | _ => INR k / INR (n - 1)
  end.

(** [n] evenly spaced points along the segment from [p] to [q]. *)
Definition sample_points (p q : R * R) (n : nat) : list (R * R) :=
  map (fun k => (fst p + fraction n k * (fst q - fst p),
                 snd p + fraction n k * (snd q - snd p)))
      (seq 0 n).

(** Terrain elevation at each sample. *)
Definition terrain (dem : Distance.DatasetReader) (pts : list (R * R)) : list R :=
  map (fun pt => Distance.elevation dem (fst pt) (snd pt)) pts.

(** Straight-line profile: linear interpolation between the two endpoint
    elevations across the [n] samples. *)
Definition line_profile (z_first z_last : R) (n : nat) : list R :=
  map (fun k => z_first + fraction n k * (z_last - z_first)) (seq 0 n).

(** Clipping: wherever the line exceeds the terrain, take the terrain. *)
Definition clipped (line ground : list R) : list R :=
  map (fun lg => Rmin (fst lg) (snd lg)) (combine line ground).

(** Steps 2-5: the sample points and the elevation profile of a pair. *)
Definition samples (dem : Distance.DatasetReader) (p q : R * R) : list (R * R) :=
  sample_points p q (sample_count (d_xy p q) (fst (Distance.res dem))).

Definition z_profile (dem : Distance.DatasetReader) (topography : bool)
    (p q : R * R) : list R :=
  let pts := samples dem p q in
  let line := line_profile (Distance.elevation dem (fst p) (snd p))
                           (Distance.elevation dem (fst q) (snd q))
                           (length pts) in
  if topography then clipped line (terrain dem pts) else line.

(** Total vertical excursion [sum |delta z|] of a profile. *)
Fixpoint excursion (zs : list R) : R :=
  match zs with
  | a :: (b :: _) as tl => Rabs (b - a) + excursion tl
  | _ => 0
  end.

(** Map mode: [sqrt(d_xy^2 + (sum |delta z|)^2)]. *)
Definition map_distance (dem : Distance.DatasetReader) (topography : bool)
    (p q : R * R) : R :=
  sqrt (d_xy p q * d_xy p q
        + excursion (z_profile dem topography p q)
          * excursion (z_profile dem topography p q)).

(** Euclidean distance of two points in space. *)
Definition dist3 (a b : R * R * R) : R :=
  let '(xa, ya, za) := a in
  let '(xb, yb, zb) := b in
  sqrt ((xb - xa) * (xb - xa) + (yb - ya) * (yb - ya) + (zb - za) * (zb - za)).

(** Sum of the lengths of consecutive segments of a polyline. *)
Fixpoint polyline_length (pts : list (R * R * R)) : R :=
  match pts with
  | a :: (b :: _) as tl => dist3 a b + polyline_length tl
  | _ => 0
  end.

(** Matrix mode: arc length through the sampled [(x, y, z)] points. *)
Definition matrix_distance (dem : Distance.DatasetReader) (topography : bool)
    (p q : R * R) : R :=
  polyline_length (combine (samples dem p q) (z_profile dem topography p q)).

(** Window count of the scheduler:
    [floor((T - time_window) / (time_window - overlap)) + 1]. *)
Definition num_windows (T time_window overlap : Z) : Z :=
  ((T - time_window) / (time_window - overlap) + 1)%Z.

(** Start time of window [i]: [i * (time_window - overlap) / sampling_rate]. *)
Definition window_start_time (i time_window overlap : Z) (sampling_rate : R) : R :=
  IZR (i * (time_window - overlap)) / sampling_rate.

End Spec.

(** The sample coordinates and the elevation profile of lines 59-71 and
    102-114, written with the formulas above. *)
Definition profile_of (dem : Distance.DatasetReader) (topography : bool)
    (line_length : R) (p q : R * R) : list R * list R * list R :=
  let n := Spec.sample_count line_length (fst (Distance.res dem)) in
  let line := Spec.line_profile (Distance.elevation dem (fst p) (snd p))
                                (Distance.elevation dem (fst q) (snd q)) n in
  (Np.linspace_nat (fst p) (fst q) n,
   Np.linspace_nat (snd p) (snd q) n,
   if topography
   then Spec.clipped line (Spec.terrain dem (Spec.sample_points p q n))
   else line).

(** The value the map of a station holds for cell [(j, k)]. *)
Definition cell_value (dem : Distance.DatasetReader) (topography : bool)
    (aoi_ext : R * R * R * R) (xy_stat : R * R) (j k : nat) : Distance.cell :=
  let idx := (j * snd (Distance.shape dem) + k)%nat in
  if (nth idx (Distance.aoi_array dem aoi_ext) 0 =? 1)%Z
  then Distance.Finite
         (Spec.map_distance dem topography xy_stat
            (nth idx (Distance.xy_dem dem) (0, 0)))
  else Distance.NaN.

(** The grid of one station, row by row. *)
Definition grid_of (dem : Distance.DatasetReader) (topography : bool)
    (aoi_ext : R * R * R * R) (xy_stat : R * R) : list (list Distance.cell) :=
  map (fun j => map (fun k => cell_value dem topography aoi_ext xy_stat j k)
                    (seq 0 (snd (Distance.shape dem))))
      (seq 0 (fst (Distance.shape dem))).

(** The matrix of all ordered station pairs. *)
Definition matrix_of (dem : Distance.DatasetReader) (topography : bool)
    (stations : list (R * R)) : list (list R) :=
  map (fun si => map (fun sj => Spec.matrix_distance dem topography si sj) stations)
      stations.

(** The dictionary a run returns once the input checks have passed. *)
Definition distances_of (dem : Distance.DatasetReader)
    (topography maps matrix : bool) (stations : list (R * R))
    (aoi_ext : R * R * R * R) : Distance.distances :=
  Distance.mk_distances
    (if maps
     then map (fun xy_stat =>
                 Some (Distance.mk_map (Distance.crs dem) (Distance.bounds dem)
                         (Distance.res dem)
                         (grid_of dem topography aoi_ext xy_stat)))
              stations
     else repeat None (length stations))
    (if matrix then Some (matrix_of dem topography stations) else None).

(** A point within a rectangle [(xmin, xmax, ymin, ymax)]. *)
Definition inside (rect : R * R * R * R) (p : R * R) : Prop :=
  let '(x0, x1, y0, y1) := rect in
  x0 <= fst p <= x1 /\ y0 <= snd p <= y1.

(* ===================================================================== *)
(** ** Concrete inputs *)
(* ===================================================================== *)

Module Examples.

(** A localizer that returns one parameter, as a distance map with one
    column gives. *)
Definition one_param : list R -> list (list R) -> result (list R) :=
  fun _ _ => ret [0].

(** One channel of four samples. *)
Definition four_samples : list (list R) := [[1; 2; 3; 4]].

(** A column of five cells of size 1, centred at [(0, 0)] .. [(4, 0)],
    whose second cell lies one unit below the others. *)
Definition strip : Distance.DatasetReader :=
  Distance.mk_dem (5%nat, 1%nat) false
    (fun j _ => (INR j, 0))
    (fun x _ => if Rle_dec (1 / 2) x then if Rlt_dec x (3 / 2) then -1 else 0 else 0)
    (1, 1) "EPSG:32610" (-1 / 2, -1 / 2, 9 / 2, 1 / 2).


(** Two stations at the ends of the column, and an AOI over its first three
    cells. *)
Definition two_stations : list (R * R) := [(0, 0); (4, 0)].
Definition three_cells : R * R * R * R := (0, 2, 0, 0).

End Examples.

(* ===================================================================== *)
(** ** Properties of the error monad *)
(* ===================================================================== *)

Lemma bind_inr {A B : Type} (m : result A) (k : A -> result B) (b : B) :
  bind m k = inr b -> exists a, m = inr a /\ k a = inr b.
Proof.
  destruct m as [e | a]; simpl; intros H.
  - discriminate H.
  - exists a. split; [reflexivity | exact H].
Qed.

Ltac inv_bind H :=
  let a := fresh "v" in
  let E := fresh "E" in
  apply bind_inr in H; destruct H as (a & E & H).

Lemma mapM_inr {A B : Type} (f : A -> result B) (l : list A) (bs : list B) :
  mapM f l = inr bs -> Forall2 (fun a b => f a = inr b) l bs.
Proof.
  revert bs. induction l as [| a l IH]; simpl; intros bs H.
  - injection H as <-. constructor.
  - inv_bind H. inv_bind H. injection H as <-.
    constructor; [assumption | apply IH; assumption].
Qed.

Lemma mapM_total {A B : Type} (f : A -> result B) (g : A -> B) (l : list A) :
  (forall a, In a l -> f a = inr (g a)) -> mapM f l = inr (map g l).
Proof.
  induction l as [| a l IH]; simpl; intros H.
  - reflexivity.
  - rewrite (H a (or_introl eq_refl)). simpl.
    rewrite IH by (intros; apply H; right; assumption).
    reflexivity.
Qed.

Lemma Forall2_nth {A B : Type} (P : A -> B -> Prop) (l : list A) (l' : list B)
    (da : A) (db : B) (i : nat) :
  Forall2 P l l' -> (i < length l)%nat -> P (nth i l da) (nth i l' db).
Proof.
  intros H. revert i. induction H; simpl; intros i Hi.
  - lia.
  - destruct i; [assumption | apply IHForall2; lia].
Qed.

(* ===================================================================== *)
(** ** Properties of the NumPy primitives *)
(* ===================================================================== *)

Lemma range_length (n : Z) : length (Np.range n) = Z.to_nat n.
Proof. unfold Np.range. rewrite length_map, length_seq. reflexivity. Qed.

Lemma range_nth (n : Z) (i : nat) :
  (i < Z.to_nat n)%nat -> nth i (Np.range n) 0%Z = Z.of_nat i.
Proof.
  intros Hi. unfold Np.range.
  rewrite (nth_indep _ 0%Z (Z.of_nat 0)) by (rewrite length_map, length_seq; lia).
  rewrite map_nth, seq_nth by lia. reflexivity.
Qed.

Lemma arange_length (lo hi : Z) : length (Np.arange lo hi) = Z.to_nat (hi - lo).
Proof. unfold Np.arange. rewrite length_map, length_seq. reflexivity. Qed.

Lemma arange_nth (lo hi : Z) (i : nat) :
  (i < Z.to_nat (hi - lo))%nat -> nth i (Np.arange lo hi) 0%Z = (lo + Z.of_nat i)%Z.
Proof.
  intros Hi. unfold Np.arange.
  rewrite (nth_indep _ 0%Z (lo + Z.of_nat 0)%Z) by (rewrite length_map, length_seq; lia).
  rewrite (map_nth (fun k => (lo + Z.of_nat k)%Z)), seq_nth by lia. reflexivity.
Qed.

Lemma slice_inside {A : Type} (l : list A) (s w : Z) :
  (0 <= s)%Z -> (0 <= w)%Z -> (s + w <= Z.of_nat (length l))%Z ->
  Np.slice l s (s + w) = firstn (Z.to_nat w) (skipn (Z.to_nat s) l).
Proof.
  intros Hs Hw Hl. unfold Np.slice, Np.slice_index.
  destruct (Z.ltb_spec s 0); [lia |].
  destruct (Z.ltb_spec (s + w) 0); [lia |].
  rewrite !Z.min_l by lia.
  replace (s + w - s)%Z with w by lia. reflexivity.
Qed.

Lemma slice_inside_length {A : Type} (l : list A) (s w : Z) :
  (0 <= s)%Z -> (0 <= w)%Z -> (s + w <= Z.of_nat (length l))%Z ->
  length (Np.slice l s (s + w)) = Z.to_nat w.
Proof.
  intros Hs Hw Hl. rewrite slice_inside by assumption.
  rewrite length_firstn, length_skipn. lia.
Qed.

Lemma slice_inside_nth {A : Type} (l : list A) (s w : Z) (k : nat) (d : A) :
  (0 <= s)%Z -> (0 <= w)%Z -> (s + w <= Z.of_nat (length l))%Z ->
  (k < Z.to_nat w)%nat ->
  nth k (Np.slice l s (s + w)) d = nth (Z.to_nat s + k) l d.
Proof.
  intros Hs Hw Hl Hk. rewrite slice_inside by assumption.
  rewrite nth_firstn.
  destruct (Nat.ltb_spec k (Z.to_nat w)); [| lia].
  apply nth_skipn.
Qed.

Lemma linspace_nat_length (a b : R) (n : nat) :
  length (Np.linspace_nat a b n) = n.
Proof. unfold Np.linspace_nat. rewrite length_map, length_seq. reflexivity. Qed.

Lemma linspace_nat_nth (a b : R) (n k : nat) :
  (k < n)%nat ->
  nth k (Np.linspace_nat a b n) 0 = INR k * ((b - a) / INR (n - 1)) + a.
Proof.
  intros Hk. unfold Np.linspace_nat.
  set (f := fun k0 : nat => if Nat.eqb (n - 1) 0 then _ else _).
  rewrite (nth_indep _ 0 (f 0%nat)) by (rewrite length_map, length_seq; lia).
  rewrite map_nth, seq_nth by lia. simpl. unfold f.
  destruct (Nat.eqb_spec (n - 1) 0) as [E | E]; [| reflexivity].
  assert (k = 0%nat) by lia. subst k. simpl. lra.
Qed.

(** The slot NumPy overwrites with [stop] already holds it. *)
Lemma linspace_last (a b : R) (n : nat) :
  (1 < n)%nat -> nth (n - 1) (Np.linspace_nat a b n) 0 = b.
Proof.
  intros Hn. rewrite linspace_nat_nth by lia.
  assert (INR (n - 1) <> 0) by (apply not_0_INR; lia).
  field. assumption.
Qed.

(* ===================================================================== *)
(** ** The window loop *)
(* ===================================================================== *)

Section WindowLoop.

Variable localize : list R -> list (list R) -> result (list R).
Variable data : list (list R).
Variable distance_map : list (list R).
Variable max_lag time_window overlap : Z.

Let step := Track.window_step localize data distance_map max_lag time_window overlap.
Let loop := Track.window_loop localize data distance_map max_lag time_window overlap.

Lemma window_step_inr (i : Z) (acc acc' : Track.accumulators) :
  step i acc = ret acc' ->
  exists est,
    Track.estimate_of localize data distance_map time_window overlap i est /\
    Track.mean_coordinates acc' = Track.mean_coordinates acc ++ [Np.mean est] /\
    Track.sd_coordinates acc' = Track.sd_coordinates acc ++ [Np.std est] /\
    length (Track.mean_amplitudes acc') = S (length (Track.mean_amplitudes acc)) /\
    length (Track.sd_amplitudes acc') = S (length (Track.sd_amplitudes acc)) /\
    length (Track.mean_variances acc') = S (length (Track.mean_variances acc)) /\
    length (Track.sd_variances acc') = S (length (Track.sd_variances acc)).
Proof.
  unfold step, Track.window_step, Track.estimate_of, ret. intros H.
  inv_bind H.
  destruct (Track.window_data data time_window overlap i) as [| w0 w]; [discriminate H |].
  inv_bind H. injection H as <-. simpl.
  exists v0. rewrite !length_app. simpl.
  repeat split; try assumption; try reflexivity; lia.
Qed.

Lemma window_loop_inr (ws : list Z) (acc acc' : Track.accumulators) :
  loop ws acc = ret acc' ->
  exists ests,
    Forall2 (Track.estimate_of localize data distance_map time_window overlap) ws ests /\
    Track.mean_coordinates acc' = Track.mean_coordinates acc ++ map Np.mean ests /\
    Track.sd_coordinates acc' = Track.sd_coordinates acc ++ map Np.std ests /\
    length (Track.mean_amplitudes acc') = (length (Track.mean_amplitudes acc) + length ws)%nat /\
    length (Track.sd_amplitudes acc') = (length (Track.sd_amplitudes acc) + length ws)%nat /\
    length (Track.mean_variances acc') = (length (Track.mean_variances acc) + length ws)%nat /\
    length (Track.sd_variances acc') = (length (Track.sd_variances acc) + length ws)%nat.
Proof.
  revert acc. induction ws as [| i ws IH]; intros acc H.
  - injection H as <-. exists []. rewrite !app_nil_r, !Nat.add_0_r.
    repeat split. constructor.
  - simpl in H. inv_bind H.
    apply window_step_inr in E as (est & He & Hm & Hs & H1 & H2 & H3 & H4).
    apply IH in H as (ests & Hf & Hm' & Hs' & H1' & H2' & H3' & H4').
    exists (est :: ests). simpl.
    rewrite Hm', Hm, Hs', Hs, H1', H1, H2', H2, H3', H3, H4', H4, <- !app_assoc.
    repeat split; try reflexivity; try lia.
    constructor; assumption.
Qed.

End WindowLoop.

(** What a successful run returns. *)
Lemma spatial_track_inr localize data distance_map sampling_rate max_lag
    time_window overlap (r : Track.results) :
  Track.spatial_track localize data distance_map sampling_rate max_lag
    time_window overlap = ret r ->
  exists n ests,
    Track.num_windows (Track.shape1 data) time_window overlap = ret n /\
    (0 <= n)%Z /\
    sampling_rate <> 0 /\
    Track.time r = Np.linspace_nat 0 (IZR (Track.shape1 data) / sampling_rate) (Z.to_nat n) /\
    Forall2 (Track.estimate_of localize data distance_map time_window overlap) (Np.range n) ests /\
    Track.x (Track.mean r) = map Np.mean ests /\
    Track.y (Track.mean r) = map Np.mean ests /\
    Track.x (Track.sd r) = map Np.std ests /\
    Track.y (Track.sd r) = map Np.std ests /\
    length (Track.a_0 (Track.mean r)) = Z.to_nat n /\
    length (Track.var (Track.mean r)) = Z.to_nat n /\
    length (Track.a_0 (Track.sd r)) = Z.to_nat n /\
    length (Track.var (Track.sd r)) = Z.to_nat n.
Proof.
  unfold Track.spatial_track, ret. intros H.
  inv_bind H. inv_bind H. inv_bind H. inv_bind H. injection H as <-.
  destruct (Req_dec_T sampling_rate 0) as [? | Hsr]; [discriminate E0 |].
  injection E0 as <-.
  unfold Np.linspace in E1.
  destruct (Z.ltb_spec v 0) as [? | Hn]; [discriminate E1 |].
  injection E1 as <-.
  apply window_loop_inr in E2 as (ests & Hf & Hm & Hs & H1 & H2 & H3 & H4).
  simpl in *. rewrite range_length in *.
  exists v, ests. repeat split; assumption.
Qed.

(** A run over three windows of two samples succeeds. *)
Lemma three_windows_run :
  exists r,
    Track.spatial_track Examples.one_param Examples.four_samples [] 1 0 2 1 = ret r.
Proof.
  unfold Track.spatial_track. cbn -[Np.linspace_nat Np.mean Np.std].
  destruct (Req_dec_T 1 0) as [E | E]; [lra |].
  cbn -[Np.linspace_nat Np.mean Np.std].
  eexists. reflexivity.
Qed.

(* ===================================================================== *)
(** ** The window scheduler and the orchestrator: claims *)
(* ===================================================================== *)

(** C6, as stated, fails: with 100 samples, a window of 150 and an overlap
    of 50 the code schedules one window, the floor formula none. *)
Lemma C6_counterexample :
  Track.num_windows 100 150 50 <> ret (Spec.num_windows 100 150 50).
Proof. vm_compute. discriminate. Qed.

(** C6, amended: when [0 <= time_window], [overlap < time_window] and
    [time_window <= T], the number of windows is
    [floor((T - time_window) / (time_window - overlap)) + 1], window [i]
    ends inside the data and holds exactly the samples
    [i * (time_window - overlap) .. i * (time_window - overlap) +
    time_window - 1] of every channel; 1000 samples, a window of 100 and
    an overlap of 50 give 19 windows. *)
Theorem C6_window_schedule (data : list (list R)) (T time_window overlap : Z) :
  (0 <= time_window)%Z -> (overlap < time_window)%Z -> (time_window <= T)%Z ->
  Forall (fun row => Z.of_nat (length row) = T) data ->
  Track.num_windows T time_window overlap
    = ret (Spec.num_windows T time_window overlap)
  /\ (forall i : Z,
        (0 <= i < Spec.num_windows T time_window overlap)%Z ->
        (i * (time_window - overlap) + time_window <= T)%Z /\
        Forall2 (fun row w =>
                   length w = Z.to_nat time_window /\
                   forall k : nat, (k < Z.to_nat time_window)%nat ->
                     nth k w 0 = nth (Z.to_nat (i * (time_window - overlap)) + k) row 0)
                data (Track.window_data data time_window overlap i))
  /\ Track.num_windows 1000 100 50 = ret 19%Z.
Proof.
  intros Htw Hov HT Hrows.
  assert (Hd : (0 < time_window - overlap)%Z) by lia.
  split; [| split].
  - unfold Track.num_windows, Spec.num_windows.
    destruct (Z.eqb_spec (time_window - overlap) 0); [lia |].
    rewrite Z.quot_div_nonneg by lia. reflexivity.
  - intros i [Hi0 Hi]. unfold Spec.num_windows in Hi.
    assert (Hq : ((T - time_window) / (time_window - overlap) * (time_window - overlap)
                  <= T - time_window)%Z).
    { rewrite Z.mul_comm. apply Z.mul_div_le. assumption. }
    assert (Hend : (i * (time_window - overlap) + time_window <= T)%Z) by nia.
    split; [exact Hend |].
    unfold Track.window_data.
    induction Hrows as [| row rows Hrow Hrows' IH]; simpl; constructor.
    + split.
      * apply slice_inside_length; nia.
      * intros k Hk. apply slice_inside_nth; solve [nia | assumption].
    + apply IH.
  - reflexivity.
Qed.

(** C6 at four samples, a window of 2 and an overlap of 1. *)
Lemma C6_window_schedule_witness :
  Track.num_windows 4 2 1 = ret (Spec.num_windows 4 2 1)
  /\ Track.window_data Examples.four_samples 2 1 2 = [[3; 4]].
Proof.
  pose proof (C6_window_schedule Examples.four_samples 4 2 1) as H.
  destruct H as (H1 & H2 & _); try lia.
  - repeat constructor.
  - split; [exact H1 | reflexivity].
Defined.

(** C2, as stated, fails: four samples, a window of 10 and an overlap of 4
    give [num_windows = 0], and the call returns a result whose time series
    is empty. *)
Lemma C2_counterexample :
  exists n r,
    Track.num_windows (Track.shape1 Examples.four_samples) 10 4 = ret n
    /\ (n <= 0)%Z
    /\ Track.spatial_track Examples.one_param Examples.four_samples [] 1 0 10 4 = ret r
    /\ Track.time r = [].
Proof.
  exists 0%Z.
  exists (Track.mk_results [] (Track.mk_stats [] [] [] []) (Track.mk_stats [] [] [] [])).
  split; [reflexivity |]. split; [lia |]. split; [| reflexivity].
  unfold Track.spatial_track. cbn.
  destruct (Req_dec_T 1 0) as [E | E]; [lra |]. reflexivity.
Qed.

(** C2, amended: there is no check of [num_windows].  When it is 0 the
    call returns a result whose series are all empty; when it is negative
    the call raises the [ValueError] of [np.linspace]. *)
Theorem C2_empty_series_without_error localize data distance_map sampling_rate
    max_lag time_window overlap (n : Z) :
  Track.num_windows (Track.shape1 data) time_window overlap = ret n ->
  sampling_rate <> 0 ->
  (n = 0%Z ->
     Track.spatial_track localize data distance_map sampling_rate max_lag
       time_window overlap
     = ret (Track.mk_results [] (Track.mk_stats [] [] [] [])
                             (Track.mk_stats [] [] [] [])))
  /\ ((n < 0)%Z ->
     Track.spatial_track localize data distance_map sampling_rate max_lag
       time_window overlap
     = raise (ValueError "Number of samples must be non-negative.")).
Proof.
  intros Hn Hsr. unfold Track.spatial_track. rewrite Hn. unfold ret. simpl.
  destruct (Req_dec_T sampling_rate 0) as [? | _]; [contradiction |]. simpl.
  split; intros H.
  - subst n. reflexivity.
  - unfold Np.linspace. destruct (Z.ltb_spec n 0); [reflexivity | lia].
Qed.

(** C2 at four samples, a window of 10 and an overlap of 4. *)
Lemma C2_empty_series_without_error_witness :
  Track.spatial_track Examples.one_param Examples.four_samples [] 1 0 10 4
  = ret (Track.mk_results [] (Track.mk_stats [] [] [] []) (Track.mk_stats [] [] [] [])).
Proof.
  apply (C2_empty_series_without_error Examples.one_param Examples.four_samples
           [] 1 0%Z 10%Z 4%Z 0%Z).
  - reflexivity.
  - lra.
  - reflexivity.
Defined.

(** C3, as stated, fails: with four samples at rate 1, a window of 2 and
    an overlap of 1, the second entry of [time] is 2, not the start time 1
    of the second window. *)
Lemma C3_counterexample :
  exists r,
    Track.spatial_track Examples.one_param Examples.four_samples [] 1 0 2 1 = ret r
    /\ nth 1 (Track.time r) 0 <> Spec.window_start_time 1 2 1 1.
Proof.
  destruct three_windows_run as [r Hr]. exists r. split; [exact Hr |].
  apply spatial_track_inr in Hr as (n & ests & Hn & _ & _ & Ht & _).
  injection Hn as <-. rewrite Ht.
  rewrite linspace_nat_nth by (simpl; lia).
  unfold Spec.window_start_time.
  change (Track.shape1 Examples.four_samples) with 4%Z. simpl. lra.
Qed.

(** C3, amended: in a returned result [time] is
    [np.linspace(0, T / sampling_rate, num_windows)], so entry [i] is
    [i * (T / sampling_rate) / (num_windows - 1)], and every mean and sd
    sequence has the length of [time]. *)
Theorem C3_time_axis_is_linspace localize data distance_map sampling_rate max_lag
    time_window overlap (r : Track.results) :
  Track.spatial_track localize data distance_map sampling_rate max_lag
    time_window overlap = ret r ->
  exists n : Z,
    Track.num_windows (Track.shape1 data) time_window overlap = ret n
    /\ length (Track.time r) = Z.to_nat n
    /\ (forall i : nat, (i < Z.to_nat n)%nat ->
          nth i (Track.time r) 0
          = INR i * ((IZR (Track.shape1 data) / sampling_rate) / INR (Z.to_nat n - 1)))
    /\ length (Track.x (Track.mean r)) = length (Track.time r)
    /\ length (Track.y (Track.mean r)) = length (Track.time r)
    /\ length (Track.a_0 (Track.mean r)) = length (Track.time r)
    /\ length (Track.var (Track.mean r)) = length (Track.time r)
    /\ length (Track.x (Track.sd r)) = length (Track.time r)
    /\ length (Track.y (Track.sd r)) = length (Track.time r)
    /\ length (Track.a_0 (Track.sd r)) = length (Track.time r)
    /\ length (Track.var (Track.sd r)) = length (Track.time r).
Proof.
  intros H.
  apply spatial_track_inr in H
    as (n & ests & Hn & Hn0 & Hsr & Ht & Hf & Hmx & Hmy & Hsx & Hsy & Ha & Hv & Hsa & Hsv).
  assert (Hl : length ests = Z.to_nat n).
  { apply Forall2_length in Hf. rewrite range_length in Hf. congruence. }
  exists n. rewrite Ht, Hmx, Hmy, Hsx, Hsy, Ha, Hv, Hsa, Hsv.
  rewrite !length_map, linspace_nat_length, Hl.
  repeat split; try reflexivity; try assumption.
  intros i Hi. rewrite linspace_nat_nth by assumption.
  rewrite Rminus_0_r, Rplus_0_r. reflexivity.
Qed.

(** C3 on the run over three windows. *)
Lemma C3_time_axis_is_linspace_witness :
  exists r,
    Track.spatial_track Examples.one_param Examples.four_samples [] 1 0 2 1 = ret r
    /\ length (Track.time r) = 3%nat
    /\ length (Track.x (Track.mean r)) = length (Track.time r).
Proof.
  destruct three_windows_run as [r Hr]. exists r. split; [exact Hr |].
  destruct (C3_time_axis_is_linspace _ _ _ _ _ _ _ r Hr)
    as (n & Hn & Hlen & _ & Hx & _).
  injection Hn as <-. split; assumption.
Defined.

(** C10: in a returned result the mean sequences of [x] and [y] are the
    same list, and so are the sd sequences: both hold, window by window,
    the mean (the standard deviation) of the parameter vector the localizer
    returned for that window. *)
Theorem C10_x_and_y_coincide localize data distance_map sampling_rate max_lag
    time_window overlap (r : Track.results) :
  Track.spatial_track localize data distance_map sampling_rate max_lag
    time_window overlap = ret r ->
  Track.x (Track.mean r) = Track.y (Track.mean r)
  /\ Track.x (Track.sd r) = Track.y (Track.sd r)
  /\ exists (n : Z) (ests : list (list R)),
       Track.num_windows (Track.shape1 data) time_window overlap = ret n
       /\ Forall2 (Track.estimate_of localize data distance_map time_window overlap)
                  (Np.range n) ests
       /\ Track.x (Track.mean r) = map Np.mean ests
       /\ Track.x (Track.sd r) = map Np.std ests.
Proof.
  intros H.
  apply spatial_track_inr in H
    as (n & ests & Hn & _ & _ & _ & Hf & Hmx & Hmy & Hsx & Hsy & _).
  split; [congruence |]. split; [congruence |].
  exists n, ests. repeat split; assumption.
Qed.

(** C10 on the run over three windows. *)
Lemma C10_x_and_y_coincide_witness :
  exists r,
    Track.spatial_track Examples.one_param Examples.four_samples [] 1 0 2 1 = ret r
    /\ Track.x (Track.mean r) = Track.y (Track.mean r)
    /\ Track.x (Track.sd r) = Track.y (Track.sd r).
Proof.
  destruct three_windows_run as [r Hr]. exists r. split; [exact Hr |].
  destruct (C10_x_and_y_coincide _ _ _ _ _ _ _ r Hr) as (Hm & Hs & _).
  split; assumption.
Defined.

Lemma correlate_full_inhabited (a v : list R) :
  (0 < length a)%nat -> (0 < length v)%nat ->
  Np.correlate_full a v
  = ret (map (fun m =>
                Np.sum (map (fun n =>
                               Np.getZ a (Z.of_nat n + Z.of_nat m
                                          - (Z.of_nat (length v) - 1))
                               * nth n v 0)
                            (seq 0 (length v))))
             (seq 0 (length a + length v - 1))).
Proof.
  intros Ha Hv. unfold Np.correlate_full.
  destruct a; [simpl in Ha; lia |]. destruct v; [simpl in Hv; lia |]. reflexivity.
Qed.


(** C9, as stated, fails: for signals of three samples and [max_lag = 3]
    the slice holds one value, against seven lags. *)
Lemma C9_counterexample :
  exists vals lags,
    Track.cross_correlation [1; 2; 3] [1; 2; 3] 3 = ret (vals, lags)
    /\ length vals <> Z.to_nat (2 * 3 + 1)
    /\ length vals <> length lags.
Proof.
  eexists. eexists. split; [reflexivity |].
  split; vm_compute; discriminate.
Qed.

(** C9, amended: for signals of equal length [N] and [0 <= max_lag < N],
    the correlator returns [2 * max_lag + 1] values and the lags
    [-max_lag .. max_lag]; the value at index [t] is the correlation of the
    mean-centred signals at lag [t - max_lag], i.e.
    [sum_n xc[n + lag] * yc[n]]. *)
Theorem C9_lag_window (x y : list R) (max_lag : Z) :
  length x = length y ->
  (0 <= max_lag < Z.of_nat (length x))%Z ->
  exists vals : list R,
    Track.cross_correlation x y max_lag
      = ret (vals, Np.arange (- max_lag) (max_lag + 1))
    /\ length vals = Z.to_nat (2 * max_lag + 1)
    /\ length (Np.arange (- max_lag) (max_lag + 1)) = Z.to_nat (2 * max_lag + 1)
    /\ forall t : nat, (t < Z.to_nat (2 * max_lag + 1))%nat ->
         nth t (Np.arange (- max_lag) (max_lag + 1)) 0%Z = (Z.of_nat t - max_lag)%Z
         /\ nth t vals 0
            = Np.sum (map (fun n =>
                             Np.getZ (map (fun v => v - Np.mean x) x)
                                     (Z.of_nat n + (Z.of_nat t - max_lag))
                             * nth n (map (fun v => v - Np.mean y) y) 0)
                          (seq 0 (length y))).
Proof.
  intros Hxy [HL0 HL].
  unfold Track.cross_correlation.
  set (xc := map (fun v => v - Np.mean x) x).
  set (yc := map (fun v => v - Np.mean y) y).
  assert (Hxc : length xc = length x) by apply length_map.
  assert (Hyc : length yc = length x) by (unfold yc; rewrite length_map; auto).
  rewrite correlate_full_inhabited by lia.
  set (f := fun m : nat => Np.sum _).
  unfold ret at 1. simpl bind.
  rewrite length_map, length_seq, Hxc, Hyc.
  set (N := length x) in *.
  assert (Hhalf : (Z.of_nat (N + N - 1) / 2 = Z.of_nat N - 1)%Z).
  { symmetry. apply Z.div_unique with (r := 1%Z); lia. }
  rewrite Hhalf.
  replace (Z.of_nat N - 1 + max_lag + 1)%Z
    with ((Z.of_nat N - 1 - max_lag) + (2 * max_lag + 1))%Z by lia.
  assert (Hlen : length (map f (seq 0 (N + N - 1))) = (N + N - 1)%nat)
    by (rewrite length_map, length_seq; reflexivity).
  exists (Np.slice (map f (seq 0 (N + N - 1))) (Z.of_nat N - 1 - max_lag)
                   (Z.of_nat N - 1 - max_lag + (2 * max_lag + 1))).
  split; [reflexivity |].
  split; [apply slice_inside_length; rewrite ?Hlen; lia |].
  split; [rewrite arange_length; f_equal; lia |].
  intros t Ht. split.
  - rewrite arange_nth by lia. lia.
  - rewrite slice_inside_nth by (rewrite ?Hlen; lia).
    rewrite (nth_indep _ 0 (f 0%nat)) by (rewrite Hlen; lia).
    rewrite map_nth, seq_nth by lia. unfold f.
    rewrite Hyc, <- Hxy. f_equal. apply map_ext. intros n.
    f_equal. f_equal. lia.
Qed.

(** C9 at three samples and [max_lag = 1]. *)
Lemma C9_lag_window_witness :
  exists vals,
    Track.cross_correlation [1; 2; 3] [1; 2; 3] 1 = ret (vals, [-1; 0; 1]%Z)
    /\ length vals = 3%nat.
Proof.
  destruct (C9_lag_window [1; 2; 3] [1; 2; 3] 1 eq_refl) as (vals & H & Hl & _).
  - simpl. lia.
  - exists vals. split; [exact H | exact Hl].
Defined.

(* ===================================================================== *)
(** ** Rounding *)
(* ===================================================================== *)

Lemma floor_bounds (r : R) : IZR (Np.floor r) <= r < IZR (Np.floor r) + 1.
Proof.
  unfold Np.floor. rewrite minus_IZR.
  destruct (archimed r) as [H1 H2]. lra.
Qed.

Lemma floor_IZR (z : Z) : Np.floor (IZR z) = z.
Proof.
  unfold Np.floor.
  rewrite <- (up_tech (IZR z) z); [lia | lra |].
  rewrite plus_IZR. lra.
Qed.

Lemma round_IZR (z : Z) : Np.round (IZR z) = z.
Proof.
  unfold Np.round. rewrite floor_IZR.
  destruct (Rlt_dec (IZR z - IZR z) (1 / 2)); [reflexivity | lra].
Qed.

Lemma floor_nonneg (r : R) : 0 <= r -> (0 <= Np.floor r)%Z.
Proof.
  intros Hr. destruct (floor_bounds r) as [_ H].
  assert (H' : IZR (-1) < IZR (Np.floor r)) by lra.
  apply lt_IZR in H'. lia.
Qed.

Lemma round_nonneg (r : R) : 0 <= r -> (0 <= Np.round r)%Z.
Proof.
  intros Hr. pose proof (floor_nonneg r Hr). unfold Np.round.
  destruct (Rlt_dec _ _); [lia |].
  destruct (Rlt_dec _ _); [lia |].
  destruct (Z.even _); lia.
Qed.

(* ===================================================================== *)
(** ** Code arrays against the specification's formulas *)
(* ===================================================================== *)

Lemma linspace_nat_fraction (a b : R) (n : nat) :
  Np.linspace_nat a b n
  = map (fun k => a + Spec.fraction n k * (b - a)) (seq 0 n).
Proof.
  unfold Np.linspace_nat. apply map_ext_in. intros k Hk.
  apply in_seq in Hk. unfold Spec.fraction.
  destruct n as [| [| n]].
  - lia.
  - assert (k = 0%nat) by lia. subst k. simpl. ring.
  - replace (Nat.eqb (S (S n) - 1) 0) with false by reflexivity.
    unfold Rdiv. ring.
Qed.

Lemma combine_linspace (p q : R * R) (n : nat) :
  combine (Np.linspace_nat (fst p) (fst q) n) (Np.linspace_nat (snd p) (snd q) n)
  = Spec.sample_points p q n.
Proof.
  rewrite !linspace_nat_fraction. unfold Spec.sample_points.
  induction (seq 0 n) as [| k l IH]; simpl; [reflexivity | rewrite IH; reflexivity].
Qed.

Lemma sample_points_length (p q : R * R) (n : nat) :
  length (Spec.sample_points p q n) = n.
Proof. unfold Spec.sample_points. rewrite length_map, length_seq. reflexivity. Qed.

Lemma clip_clipped (z_dir z_int : list R) :
  Distance.clip z_dir z_int = Spec.clipped z_dir z_int.
Proof.
  unfold Distance.clip, Spec.clipped. apply map_ext. intros [a b]. simpl.
  unfold Rmin. destruct (Rgt_dec a b), (Rle_dec a b); lra.
Qed.

Lemma sum_abs_diff (zs : list R) :
  Np.sum (map Rabs (Np.diff zs)) = Spec.excursion zs.
Proof.
  induction zs as [| a [| b zs] IH]; try reflexivity.
  change (Rabs (b - a) + Np.sum (map Rabs (Np.diff (b :: zs)))
          = Rabs (b - a) + Spec.excursion (b :: zs)).
  rewrite IH. reflexivity.
Qed.

Lemma sum_segments (xs ys zs : list R) :
  length ys = length xs -> length zs = length xs ->
  Np.sum (map (fun d => sqrt (fst (fst d) ^ 2 + snd (fst d) ^ 2 + snd d ^ 2))
              (combine (combine (Np.diff xs) (Np.diff ys)) (Np.diff zs)))
  = Spec.polyline_length (combine (combine xs ys) zs).
Proof.
  revert ys zs. induction xs as [| x0 [| x1 xs] IH]; intros ys zs Hy Hz.
  - reflexivity.
  - destruct ys as [| y0 [| y1 ys]]; try discriminate Hy.
    destruct zs as [| z0 [| z1 zs]]; try discriminate Hz. reflexivity.
  - destruct ys as [| y0 [| y1 ys]]; try discriminate Hy.
    destruct zs as [| z0 [| z1 zs]]; try discriminate Hz.
    specialize (IH (y1 :: ys) (z1 :: zs)).
    change (sqrt ((x1 - x0) ^ 2 + (y1 - y0) ^ 2 + (z1 - z0) ^ 2)
            + Np.sum (map (fun d => sqrt (fst (fst d) ^ 2 + snd (fst d) ^ 2 + snd d ^ 2))
                (combine (combine (Np.diff (x1 :: xs)) (Np.diff (y1 :: ys)))
                         (Np.diff (z1 :: zs))))
            = Spec.dist3 (x0, y0, z0) (x1, y1, z1)
              + Spec.polyline_length
                  (combine (combine (x1 :: xs) (y1 :: ys)) (z1 :: zs))).
    rewrite IH by (simpl in *; lia).
    unfold Spec.dist3. do 2 f_equal. ring.
Qed.


(* ===================================================================== *)
(** ** The profile of a pair of points *)
(* ===================================================================== *)

Lemma fraction_first (n : nat) : Spec.fraction n 0 = 0.
Proof.
  unfold Spec.fraction. destruct n as [| [| n]]; try reflexivity.
  unfold Rdiv. simpl INR at 1. ring.
Qed.

Lemma fraction_last (m : nat) : (1 <= m)%nat -> Spec.fraction (S m) m = 1.
Proof.
  intros Hm. unfold Spec.fraction. destruct m as [| m]; [lia |].
  replace (S (S m) - 1)%nat with (S m) by lia.
  apply Rdiv_diag. apply not_0_INR. lia.
Qed.

Lemma last_map_seq {A : Type} (g : nat -> A) (m : nat) (d : A) :
  last (map g (seq 0 (S m))) d = g m.
Proof. rewrite seq_S, map_app. simpl. apply last_last. Qed.

Section Profile.

Variable dem : Distance.DatasetReader.
Variable topography : bool.

Let elev (p : R * R) : R := Distance.elevation dem (fst p) (snd p).

Lemma terrain_first (p q : R * R) (n : nat) :
  (1 <= n)%nat ->
  hd 0 (Spec.terrain dem (Spec.sample_points p q n)) = elev p.
Proof.
  intros Hn. destruct n as [| n]; [lia |].
  unfold Spec.terrain, Spec.sample_points, elev. cbn [seq map hd fst snd].
  rewrite fraction_first. f_equal; ring.
Qed.

Lemma terrain_last (p q : R * R) (n : nat) :
  (2 <= n)%nat ->
  last (Spec.terrain dem (Spec.sample_points p q n)) 0 = elev q.
Proof.
  intros Hn. destruct n as [| n]; [lia |].
  unfold Spec.terrain, Spec.sample_points. rewrite map_map, last_map_seq.
  rewrite fraction_last by lia. unfold elev. cbn [fst snd]. f_equal; ring.
Qed.

Lemma line_profile_code (p q : R * R) (n : nat) :
  (1 <= n)%nat ->
  Np.linspace_nat (hd 0 (Spec.terrain dem (Spec.sample_points p q n)))
                  (last (Spec.terrain dem (Spec.sample_points p q n)) 0) n
  = Spec.line_profile (elev p) (elev q) n.
Proof.
  intros Hn. rewrite linspace_nat_fraction, terrain_first by assumption.
  unfold Spec.line_profile.
  destruct (Nat.eq_dec n 1) as [-> | Hn1].
  - cbn [seq map]. rewrite fraction_first. f_equal. ring.
  - rewrite terrain_last by lia. reflexivity.
Qed.

Lemma profile_total (line_length : R) (p q : R * R) :
  fst (Distance.res dem) <> 0 ->
  (0 <= Np.round (line_length / fst (Distance.res dem)))%Z ->
  Distance.profile dem topography line_length p q
  = ret (profile_of dem topography line_length p q).
Proof.
  intros Hres Hn. unfold Distance.profile, Np.round_div, profile_of. fold (elev p) (elev q).
  destruct (Req_dec_T (fst (Distance.res dem)) 0) as [? | _]; [contradiction |].
  unfold ret at 1. simpl bind.
  set (n0 := Np.round (line_length / fst (Distance.res dem))) in *.
  set (n_int := if (n0 =? 0)%Z then 1%Z else n0).
  assert (Hpos : (1 <= n_int)%Z).
  { unfold n_int. destruct (Z.eqb_spec n0 0); lia. }
  assert (Hcount : Z.to_nat n_int
                   = Spec.sample_count line_length (fst (Distance.res dem))).
  { unfold Spec.sample_count, n_int. fold n0. destruct (Z.eqb_spec n0 0); f_equal; lia. }
  unfold Np.linspace. destruct (Z.ltb_spec n_int 0); [lia |].
  unfold ret at 1 2. simpl bind. rewrite Hcount.
  set (n := Spec.sample_count line_length (fst (Distance.res dem))) in *.
  rewrite combine_linspace.
  change (map (fun xy_pt => Distance.elevation dem (fst xy_pt) (snd xy_pt))
              (Spec.sample_points p q n))
    with (Spec.terrain dem (Spec.sample_points p q n)).
  rewrite line_profile_code by lia.
  unfold ret at 1. simpl bind. rewrite clip_clipped. reflexivity.
Qed.

Lemma profile_inr (line_length : R) (p q : R * R) pr :
  Distance.profile dem topography line_length p q = ret pr ->
  fst (Distance.res dem) <> 0
  /\ (0 <= Np.round (line_length / fst (Distance.res dem)))%Z
  /\ pr = profile_of dem topography line_length p q.
Proof.
  intros H.
  assert (Hres : fst (Distance.res dem) <> 0).
  { intros E. unfold Distance.profile, Np.round_div in H.
    destruct (Req_dec_T (fst (Distance.res dem)) 0); [| contradiction].
    destruct (Req_dec_T line_length 0); discriminate H. }
  assert (Hn : (0 <= Np.round (line_length / fst (Distance.res dem)))%Z).
  { unfold Distance.profile, Np.round_div in H.
    destruct (Req_dec_T (fst (Distance.res dem)) 0); [contradiction |].
    unfold ret in H at 1. simpl bind in H.
    destruct (Z.eqb_spec (Np.round (line_length / fst (Distance.res dem))) 0) as [E | E];
      [lia |].
    unfold Np.linspace in H at 1.
    destruct (Z.ltb_spec (Np.round (line_length / fst (Distance.res dem))) 0);
      [discriminate H | assumption]. }
  rewrite profile_total in H by assumption.
  injection H as <-. auto.
Qed.

End Profile.

(* ===================================================================== *)
(** ** One station-target pair *)
(* ===================================================================== *)

Lemma d_xy_nonneg (p q : R * R) : 0 <= Spec.d_xy p q.
Proof. apply sqrt_pos. Qed.

Lemma d_xy_sqr (p q : R * R) :
  Spec.d_xy p q * Spec.d_xy p q
  = (fst q - fst p) * (fst q - fst p) + (snd q - snd p) * (snd q - snd p).
Proof.
  unfold Spec.d_xy. apply sqrt_sqrt.
  apply Rplus_le_le_0_compat; apply Rle_0_sqr.
Qed.

Lemma d_xy_same (p : R * R) : Spec.d_xy p p = 0.
Proof.
  unfold Spec.d_xy. rewrite !Rminus_diag, Rmult_0_l, Rplus_0_l. apply sqrt_0.
Qed.

Lemma round_quotient_nonneg (d cell_size : R) :
  0 <= d -> 0 < cell_size -> (0 <= Np.round (d / cell_size))%Z.
Proof.
  intros Hd Hc. apply round_nonneg. unfold Rdiv.
  apply Rmult_le_pos; [assumption |]. left. apply Rinv_0_lt_compat. assumption.
Qed.

Section Pair.

Variable dem : Distance.DatasetReader.
Variable topography : bool.

Lemma z_profile_of (p q : R * R) :
  snd (profile_of dem topography (Spec.d_xy p q) p q)
  = Spec.z_profile dem topography p q.
Proof.
  unfold profile_of, Spec.z_profile, Spec.samples. cbn [snd].
  rewrite sample_points_length. reflexivity.
Qed.

Lemma z_profile_length (p q : R * R) :
  length (Spec.z_profile dem topography p q) = length (Spec.samples dem p q).
Proof.
  unfold Spec.z_profile, Spec.clipped, Spec.line_profile, Spec.terrain.
  destruct topography;
    rewrite ?length_map, ?length_combine, ?length_map, ?length_seq; lia.
Qed.

Lemma cell_distance_code (xy_stat xy_cell : R * R) :
  Distance.cell_distance dem topography xy_stat xy_cell
  = (pr <- Distance.profile dem topography (Spec.d_xy xy_stat xy_cell)
                            xy_stat xy_cell ;;
     ret (sqrt (Spec.d_xy xy_stat xy_cell * Spec.d_xy xy_stat xy_cell
                + Spec.excursion (snd pr) * Spec.excursion (snd pr)))).
Proof.
  unfold Distance.cell_distance.
  replace (sqrt ((fst xy_stat - fst xy_cell) ^ 2 + (snd xy_stat - snd xy_cell) ^ 2))
    with (Spec.d_xy xy_stat xy_cell) by (unfold Spec.d_xy; f_equal; ring).
  destruct (Distance.profile _ _ _ _ _) as [e | [[xs ys] zs]]; [reflexivity |].
  unfold bind, ret. cbn [snd]. do 2 f_equal.
  rewrite sum_abs_diff, d_xy_sqr. ring.
Qed.

Lemma cell_distance_total (xy_stat xy_cell : R * R) :
  fst (Distance.res dem) <> 0 ->
  (0 <= Np.round (Spec.d_xy xy_stat xy_cell / fst (Distance.res dem)))%Z ->
  Distance.cell_distance dem topography xy_stat xy_cell
  = ret (Spec.map_distance dem topography xy_stat xy_cell).
Proof.
  intros Hres Hn. rewrite cell_distance_code, profile_total by assumption.
  unfold ret, bind. rewrite z_profile_of. reflexivity.
Qed.

Lemma cell_distance_inr (xy_stat xy_cell : R * R) (d : R) :
  Distance.cell_distance dem topography xy_stat xy_cell = ret d ->
  d = Spec.map_distance dem topography xy_stat xy_cell.
Proof.
  intros H. rewrite cell_distance_code in H. unfold ret in H.
  inv_bind H. apply profile_inr in E as (Hres & Hn & ->).
  rewrite z_profile_of in H. injection H as <-. reflexivity.
Qed.

Lemma station_path_code (p q : R * R) (zp zq : R) :
  Distance.station_path dem topography (fst p, snd p, zp) (fst q, snd q, zq)
  = (pr <- Distance.profile dem topography (Spec.d_xy p q) p q ;;
     ret (Np.sum (map (fun d => sqrt (fst (fst d) ^ 2 + snd (fst d) ^ 2 + snd d ^ 2))
                      (combine (combine (Np.diff (fst (fst pr))) (Np.diff (snd (fst pr))))
                               (Np.diff (snd pr)))))).
Proof.
  unfold Distance.station_path.
  replace (sqrt ((fst q - fst p) ^ 2 + (snd q - snd p) ^ 2))
    with (Spec.d_xy p q) by (unfold Spec.d_xy; f_equal; ring).
  rewrite <- surjective_pairing.
  rewrite <- (surjective_pairing q).
  destruct (Distance.profile _ _ _ _ _) as [e | [[xs ys] zs]]; reflexivity.
Qed.

Lemma path_of_profile (p q : R * R) :
  let pr := profile_of dem topography (Spec.d_xy p q) p q in
  Np.sum (map (fun d => sqrt (fst (fst d) ^ 2 + snd (fst d) ^ 2 + snd d ^ 2))
              (combine (combine (Np.diff (fst (fst pr))) (Np.diff (snd (fst pr))))
                       (Np.diff (snd pr))))
  = Spec.matrix_distance dem topography p q.
Proof.
  intros pr. rewrite sum_segments.
  - unfold pr. rewrite z_profile_of. unfold profile_of. cbn [fst snd].
    rewrite combine_linspace. reflexivity.
  - unfold pr, profile_of. cbn [fst snd]. rewrite !linspace_nat_length. reflexivity.
  - unfold pr. rewrite z_profile_of, z_profile_length.
    unfold profile_of, Spec.samples. cbn [fst snd].
    rewrite linspace_nat_length, sample_points_length. reflexivity.
Qed.

Lemma station_path_total (p q : R * R) (zp zq : R) :
  fst (Distance.res dem) <> 0 ->
  (0 <= Np.round (Spec.d_xy p q / fst (Distance.res dem)))%Z ->
  Distance.station_path dem topography (fst p, snd p, zp) (fst q, snd q, zq)
  = ret (Spec.matrix_distance dem topography p q).
Proof.
  intros Hres Hn. rewrite station_path_code, profile_total by assumption.
  unfold ret, bind. rewrite path_of_profile. reflexivity.
Qed.

Lemma station_path_inr (p q : R * R) (zp zq d : R) :
  Distance.station_path dem topography (fst p, snd p, zp) (fst q, snd q, zq) = ret d ->
  d = Spec.matrix_distance dem topography p q.
Proof.
  intros H. rewrite station_path_code in H. unfold ret in H.
  inv_bind H. apply profile_inr in E as (Hres & Hn & ->).
  rewrite path_of_profile in H. injection H as <-. reflexivity.
Qed.

End Pair.

(* ===================================================================== *)
(** ** The grid of cells *)
(* ===================================================================== *)


Lemma xy_dem_length (dem : Distance.DatasetReader) :
  length (Distance.xy_dem dem)
  = (fst (Distance.shape dem) * snd (Distance.shape dem))%nat.
Proof.
  unfold Distance.xy_dem.
  generalize 0%nat at 2. induction (fst (Distance.shape dem)) as [| r IH]; intros s.
  - reflexivity.
  - cbn [seq flat_map]. rewrite length_app, length_map, length_seq, IH. lia.
Qed.




Lemma map_cell_inr dem topography aoi_ext xy_stat (j k : nat) (v : Distance.cell) :
  Distance.map_cell dem topography aoi_ext xy_stat j k = ret v ->
  v = cell_value dem topography aoi_ext xy_stat j k.
Proof.
  unfold Distance.map_cell, cell_value, ret. intros H.
  destruct (Z.eqb _ 1).
  - inv_bind H. apply cell_distance_inr in E. injection H as <-. congruence.
  - injection H as <-. reflexivity.
Qed.

Lemma map_cell_total dem topography aoi_ext xy_stat (j k : nat) :
  0 < fst (Distance.res dem) ->
  Distance.map_cell dem topography aoi_ext xy_stat j k
  = ret (cell_value dem topography aoi_ext xy_stat j k).
Proof.
  intros Hres. unfold Distance.map_cell, cell_value.
  destruct (Z.eqb _ 1); [| reflexivity].
  rewrite cell_distance_total; [reflexivity | lra |].
  apply round_quotient_nonneg; [apply d_xy_nonneg | assumption].
Qed.

(* ===================================================================== *)
(** ** Whole maps and the matrix *)
(* ===================================================================== *)

Lemma mapM_inr_map {A B : Type} (f : A -> result B) (g : A -> B) (l : list A)
    (bs : list B) :
  (forall a b, In a l -> f a = inr b -> b = g a) ->
  mapM f l = inr bs -> bs = map g l.
Proof.
  revert bs. induction l as [| a l IH]; simpl; intros bs Hf H.
  - injection H as <-. reflexivity.
  - inv_bind H. inv_bind H. injection H as <-.
    f_equal; [apply Hf; auto | apply IH; auto].
Qed.

Lemma mapM_map {A B C : Type} (h : A -> B) (f : B -> result C) (l : list A) :
  mapM f (map h l) = mapM (fun a => f (h a)) l.
Proof.
  induction l as [| a l IH]; simpl; [reflexivity | rewrite IH; reflexivity].
Qed.

Section Engine.

Variable dem : Distance.DatasetReader.
Variable topography : bool.

Lemma station_map_inr aoi_ext xy_stat (m : Distance.distance_map) :
  Distance.station_map dem topography aoi_ext xy_stat = ret m ->
  m = Distance.mk_map (Distance.crs dem) (Distance.bounds dem) (Distance.res dem)
        (grid_of dem topography aoi_ext xy_stat).
Proof.
  unfold Distance.station_map, ret. intros H. inv_bind H. injection H as <-.
  f_equal. unfold grid_of.
  apply (mapM_inr_map _ _ _ _ (fun j row _ Hrow =>
           mapM_inr_map _ _ _ _ (fun k c _ Hc => map_cell_inr _ _ _ _ j k c Hc) Hrow) E).
Qed.

Lemma station_map_total aoi_ext xy_stat :
  0 < fst (Distance.res dem) ->
  Distance.station_map dem topography aoi_ext xy_stat
  = ret (Distance.mk_map (Distance.crs dem) (Distance.bounds dem) (Distance.res dem)
           (grid_of dem topography aoi_ext xy_stat)).
Proof.
  intros Hres. unfold Distance.station_map, grid_of.
  rewrite (mapM_total _ (fun j => map (fun k => cell_value dem topography aoi_ext xy_stat j k)
                                      (seq 0 (snd (Distance.shape dem))))).
  - reflexivity.
  - intros j _. apply mapM_total. intros k _. apply map_cell_total. assumption.
Qed.

Lemma station_matrix_inr stations (M : list (list R)) :
  Distance.station_matrix dem topography stations = ret M ->
  M = matrix_of dem topography stations.
Proof.
  unfold Distance.station_matrix, matrix_of, ret. rewrite mapM_map. intros H.
  apply (mapM_inr_map _ _ _ _) with (2 := H). intros si row _ Hrow.
  rewrite mapM_map in Hrow.
  apply (mapM_inr_map _ _ _ _) with (2 := Hrow). intros sj d _ Hd.
  apply station_path_inr in Hd. exact Hd.
Qed.

Lemma station_matrix_total stations :
  0 < fst (Distance.res dem) ->
  Distance.station_matrix dem topography stations
  = ret (matrix_of dem topography stations).
Proof.
  intros Hres. unfold Distance.station_matrix, matrix_of. rewrite mapM_map.
  apply mapM_total. intros si _. rewrite mapM_map.
  apply mapM_total. intros sj _. cbn [fst snd].
  apply station_path_total; [lra |].
  apply round_quotient_nonneg; [apply d_xy_nonneg | assumption].
Qed.

(** What a successful run returns, and which checks it has passed. *)
Lemma spatial_distance_inr stations maps matrix aoi (r : Distance.distances) :
  Distance.spatial_distance stations (Distance.Dataset dem) topography maps matrix aoi
  = ret r ->
  exists ext,
    Distance.isnan_any dem = false
    /\ Distance.extent dem = ret ext
    /\ Distance.stations_outside stations ext = ret false
    /\ Distance.aoi_outside (Distance.aoi_ext_of aoi ext) ext = false
    /\ r = distances_of dem topography maps matrix stations (Distance.aoi_ext_of aoi ext).
Proof.
  unfold Distance.spatial_distance, ret. intros H.
  destruct (Distance.isnan_any dem); [discriminate H |].
  inv_bind H. rename v into ext. inv_bind H.
  destruct v; [discriminate H |].
  destruct (Distance.aoi_outside (Distance.aoi_ext_of aoi ext) ext) eqn:Haoi; [discriminate H |].
  inv_bind H. inv_bind H. injection H as <-.
  exists ext. repeat split; try assumption.
  unfold distances_of. f_equal.
  - destruct maps.
    + apply (mapM_inr_map _ _ _ _) with (2 := E1). intros s o _ Ho.
      inv_bind Ho. injection Ho as <-. f_equal. apply station_map_inr with (1 := E3).
    + injection E1 as <-. reflexivity.
  - destruct matrix.
    + inv_bind E2. injection E2 as <-. f_equal. apply station_matrix_inr. assumption.
    + injection E2 as <-. reflexivity.
Qed.

(** A run on checked input with a positive cell size returns. *)
Lemma spatial_distance_total stations maps matrix aoi ext :
  Distance.isnan_any dem = false ->
  0 < fst (Distance.res dem) ->
  Distance.extent dem = ret ext ->
  Distance.stations_outside stations ext = ret false ->
  Distance.aoi_outside (Distance.aoi_ext_of aoi ext) ext = false ->
  Distance.spatial_distance stations (Distance.Dataset dem) topography maps matrix aoi
  = ret (distances_of dem topography maps matrix stations (Distance.aoi_ext_of aoi ext)).
Proof.
  intros Hnan Hres Hext Hst Haoi. unfold Distance.spatial_distance.
  rewrite Hnan, Hext. unfold ret at 1. cbn [bind].
  rewrite Hst. unfold ret at 1. cbn [bind].
  cbv zeta. rewrite Haoi.
  unfold distances_of. destruct maps, matrix;
    rewrite ?station_matrix_total by assumption;
    rewrite ?(mapM_total _ (fun xy_stat =>
               Some (Distance.mk_map (Distance.crs dem) (Distance.bounds dem)
                       (Distance.res dem)
                       (grid_of dem topography (Distance.aoi_ext_of aoi ext) xy_stat))));
    try reflexivity;
    intros s _; rewrite station_map_total by assumption; reflexivity.
Qed.

End Engine.

(* ===================================================================== *)
(** ** Reading the returned grids *)
(* ===================================================================== *)





Lemma matrix_row dem topography stations (i : nat) :
  (i < length stations)%nat ->
  nth i (matrix_of dem topography stations) []
  = map (fun sj => Spec.matrix_distance dem topography (nth i stations (0, 0)) sj)
        stations.
Proof.
  intros Hi. unfold matrix_of.
  set (g := fun si : R * R => map _ _).
  rewrite (nth_indep _ [] (g (0, 0))) by (rewrite length_map; lia).
  rewrite map_nth. reflexivity.
Qed.

Lemma matrix_entry dem topography stations (i j : nat) (d : R) :
  (i < length stations)%nat -> (j < length stations)%nat ->
  nth j (nth i (matrix_of dem topography stations) []) d
  = Spec.matrix_distance dem topography (nth i stations (0, 0)) (nth j stations (0, 0)).
Proof.
  intros Hi Hj. rewrite matrix_row by assumption.
  set (g := fun sj : R * R => Spec.matrix_distance _ _ _ sj).
  rewrite (nth_indep _ d (g (0, 0))) by (rewrite length_map; lia).
  rewrite map_nth. reflexivity.
Qed.


(* ===================================================================== *)
(** ** Minimum and maximum of the coordinates *)
(* ===================================================================== *)

Lemma fold_min_le (l : list R) (a : R) :
  fold_left Rmin l a <= a /\ forall v, In v l -> fold_left Rmin l a <= v.
Proof.
  revert a. induction l as [| b l IH]; intros a; simpl.
  - split; [lra | tauto].
  - destruct (IH (Rmin a b)) as [H1 H2].
    pose proof (Rmin_l a b). pose proof (Rmin_r a b).
    split; [lra |]. intros v [<- | Hv]; [lra | auto].
Qed.

Lemma fold_max_ge (l : list R) (a : R) :
  a <= fold_left Rmax l a /\ forall v, In v l -> v <= fold_left Rmax l a.
Proof.
  revert a. induction l as [| b l IH]; intros a; simpl.
  - split; [lra | tauto].
  - destruct (IH (Rmax a b)) as [H1 H2].
    pose proof (Rmax_l a b). pose proof (Rmax_r a b).
    split; [lra |]. intros v [<- | Hv]; [lra | auto].
Qed.

Lemma min_of_inhabited (l : list R) (v : R) :
  In v l -> exists m, Np.min l = ret m /\ m <= v.
Proof.
  destruct l as [| a l]; [intros [] |]. intros Hv.
  exists (fold_left Rmin l a). split; [reflexivity |].
  destruct (fold_min_le l a) as [H1 H2]. destruct Hv as [<- | Hv]; auto.
Qed.

Lemma max_of_inhabited (l : list R) (v : R) :
  In v l -> exists m, Np.max l = ret m /\ v <= m.
Proof.
  destruct l as [| a l]; [intros [] |]. intros Hv.
  exists (fold_left Rmax l a). split; [reflexivity |].
  destruct (fold_max_ge l a) as [H1 H2]. destruct Hv as [<- | Hv]; auto.
Qed.

Lemma stations_outside_detects (stations : list (R * R)) (ext : R * R * R * R)
    (s : R * R) :
  In s stations -> ~ inside ext s ->
  Distance.stations_outside stations ext = ret true.
Proof.
  destruct ext as [[[xmin xmax] ymin] ymax]. intros Hs Hout.
  destruct (min_of_inhabited (map fst stations) (fst s)) as (sxmin & E1 & L1);
    [apply in_map; assumption |].
  destruct (max_of_inhabited (map fst stations) (fst s)) as (sxmax & E2 & L2);
    [apply in_map; assumption |].
  destruct (min_of_inhabited (map snd stations) (snd s)) as (symin & E3 & L3);
    [apply in_map; assumption |].
  destruct (max_of_inhabited (map snd stations) (snd s)) as (symax & E4 & L4);
    [apply in_map; assumption |].
  unfold Distance.stations_outside. rewrite E1. unfold ret at 1. cbn [bind].
  destruct (Rlt_dec sxmin xmin); [reflexivity |].
  rewrite E2. unfold ret at 1. cbn [bind].
  destruct (Rgt_dec sxmax xmax); [reflexivity |].
  rewrite E3. unfold ret at 1. cbn [bind].
  destruct (Rlt_dec symin ymin); [reflexivity |].
  rewrite E4. unfold ret at 1. cbn [bind].
  destruct (Rgt_dec symax ymax); [reflexivity |].
  exfalso. apply Hout. unfold inside. lra.
Qed.

(* ===================================================================== *)
(** ** Degenerate and flat profiles *)
(* ===================================================================== *)

Lemma polyline_short (pts : list (R * R * R)) :
  (length pts <= 1)%nat -> Spec.polyline_length pts = 0.
Proof.
  destruct pts as [| a [| b pts]]; simpl; intros H; try reflexivity. lia.
Qed.

Lemma sample_count_zero (cell_size : R) : Spec.sample_count 0 cell_size = 1%nat.
Proof.
  unfold Spec.sample_count. rewrite Rdiv_0_l, round_IZR. reflexivity.
Qed.

Lemma matrix_distance_same dem topography (p : R * R) :
  Spec.matrix_distance dem topography p p = 0.
Proof.
  unfold Spec.matrix_distance. apply polyline_short.
  rewrite length_combine, z_profile_length, Nat.min_id.
  unfold Spec.samples. rewrite d_xy_same, sample_count_zero, sample_points_length.
  lia.
Qed.


Section Flat.

Variable dem : Distance.DatasetReader.
Variable c : R.
Hypothesis flat : forall x y, Distance.elevation dem x y = c.





End Flat.

(* ===================================================================== *)
(** ** A run over the strip *)
(* ===================================================================== *)

Ltac plain t :=
  lazymatch t with
  | context [Rmin _ _] => fail
  | context [Rmax _ _] => fail
  | context [Rle_dec _ _] => fail
  | context [Rlt_dec _ _] => fail
  | context [Rgt_dec _ _] => fail
  | context [Rge_dec _ _] => fail
  | _ => idtac
  end.

(** Decides the comparisons of a goal on numerals, innermost first. *)
Ltac rdec :=
  repeat match goal with
         | |- context [Rmin ?a ?b] =>
             plain a; plain b;
             first [rewrite (Rmin_left a b) by lra | rewrite (Rmin_right a b) by lra]
         | |- context [Rmax ?a ?b] =>
             plain a; plain b;
             first [rewrite (Rmax_left a b) by lra | rewrite (Rmax_right a b) by lra]
         | |- context [Rle_dec ?a ?b] =>
             plain a; plain b; destruct (Rle_dec a b); try (exfalso; lra)
         | |- context [Rlt_dec ?a ?b] =>
             plain a; plain b; destruct (Rlt_dec a b); try (exfalso; lra)
         | |- context [Rgt_dec ?a ?b] =>
             plain a; plain b; destruct (Rgt_dec a b); try (exfalso; lra)
         | |- context [Rge_dec ?a ?b] =>
             plain a; plain b; destruct (Rge_dec a b); try (exfalso; lra)
         end.

Lemma strip_extent : Distance.extent Examples.strip = ret (0, 4, 0, 0).
Proof.
  unfold Distance.extent. cbn. rdec.
  unfold ret. repeat f_equal; lra.
Qed.

Lemma strip_stations_inside :
  Distance.stations_outside Examples.two_stations (0, 4, 0, 0) = ret false.
Proof.
  unfold Distance.stations_outside. cbn. rdec. reflexivity.
Qed.


Lemma strip_aoi_inside : Distance.aoi_outside Examples.three_cells (0, 4, 0, 0) = false.
Proof. unfold Distance.aoi_outside, Examples.three_cells. rdec. reflexivity. Qed.

Lemma strip_run (topography maps matrix : bool) :
  Distance.spatial_distance Examples.two_stations (Distance.Dataset Examples.strip)
    topography maps matrix (Some Examples.three_cells)
  = ret (distances_of Examples.strip topography maps matrix Examples.two_stations
           Examples.three_cells).
Proof.
  apply (spatial_distance_total Examples.strip topography Examples.two_stations
           maps matrix (Some Examples.three_cells) (0, 4, 0, 0)).
  - reflexivity.
  - simpl. lra.
  - exact strip_extent.
  - exact strip_stations_inside.
  - exact strip_aoi_inside.
Qed.


Lemma strip_d_xy : Spec.d_xy (0, 0) (4, 0) = 4.
Proof.
  unfold Spec.d_xy. cbn [fst snd].
  replace ((4 - 0) * (4 - 0) + (0 - 0) * (0 - 0)) with (4 * 4) by ring.
  apply sqrt_square. lra.
Qed.






(* ===================================================================== *)
(** ** The distance engine: claims *)
(* ===================================================================== *)






(** C5: the returned matrix is square over the stations and its diagonal
    is 0. *)
Theorem C5_matrix_diagonal_zero (stations : list (R * R))
    (dem : Distance.DatasetReader) (topography maps : bool)
    (aoi : option (R * R * R * R)) (r : Distance.distances) :
  Distance.spatial_distance stations (Distance.Dataset dem) topography maps true aoi
  = ret r ->
  exists M,
    Distance.matrix r = Some M
    /\ length M = length stations
    /\ forall i : nat, (i < length stations)%nat ->
         length (nth i M []) = length stations
         /\ nth i (nth i M []) 1 = 0.
Proof.
  intros H. apply spatial_distance_inr in H as (ext & _ & _ & _ & _ & ->).
  eexists. split; [reflexivity |].
  split; [unfold matrix_of; apply length_map |].
  intros i Hi. split.
  - rewrite matrix_row by assumption. apply length_map.
  - rewrite matrix_entry by assumption. apply matrix_distance_same.
Qed.

Lemma C5_matrix_diagonal_zero_witness :
  exists r M,
    Distance.spatial_distance Examples.two_stations (Distance.Dataset Examples.strip)
      true true true (Some Examples.three_cells) = ret r
    /\ Distance.matrix r = Some M
    /\ nth 0 (nth 0 M []) 1 = 0
    /\ nth 1 (nth 1 M []) 1 = 0.
Proof.
  destruct (C5_matrix_diagonal_zero _ _ _ _ _ _ (strip_run true true true))
    as (M & HM & _ & Hdiag).
  eexists. exists M. split; [apply strip_run |]. split; [exact HM |].
  split; [apply (Hdiag 0%nat) | apply (Hdiag 1%nat)]; simpl; lia.
Defined.

(** C7: a station outside the extent of the DEM makes the call raise a
    [ValueError] instead of returning maps or a matrix; once the DEM has
    passed the NaN test the message is the one of the station test. *)
Theorem C7_station_outside_extent (stations : list (R * R))
    (dem : Distance.DatasetReader) (topography maps matrix : bool)
    (aoi : option (R * R * R * R)) (ext : R * R * R * R) (s : R * R) :
  Distance.extent dem = ret ext ->
  In s stations ->
  ~ inside ext s ->
  exists msg,
    Distance.spatial_distance stations (Distance.Dataset dem) topography maps matrix aoi
    = raise (ValueError msg)
    /\ (Distance.isnan_any dem = false ->
        msg = "Some station coordinates are outside DEM extent!"%string).
Proof.
  intros Hext Hs Hout. unfold Distance.spatial_distance.
  destruct (Distance.isnan_any dem).
  - eexists. split; [reflexivity | discriminate].
  - rewrite Hext. unfold ret at 1. cbn [bind].
    rewrite (stations_outside_detects stations ext s Hs Hout).
    unfold ret at 1. cbn [bind]. eexists. split; reflexivity.
Qed.

Lemma C7_station_outside_extent_witness :
  Distance.spatial_distance [(0, 0); (5, 0)] (Distance.Dataset Examples.strip)
    true true true None
  = raise (ValueError "Some station coordinates are outside DEM extent!").
Proof.
  destruct (C7_station_outside_extent [(0, 0); (5, 0)] Examples.strip true true true
              None (0, 4, 0, 0) (5, 0) strip_extent) as (msg & H & Hmsg).
  - simpl. auto.
  - simpl. lra.
  - rewrite H, Hmsg; reflexivity.
Defined.



(* ===================================================================== *)
(** ** Sums and means *)
(* ===================================================================== *)

Lemma sum_app (l l' : list R) : Np.sum (l ++ l') = Np.sum l + Np.sum l'.
Proof.
  unfold Np.sum. induction l as [| a l IH]; simpl; [lra | rewrite IH; lra].
Qed.

Lemma sum_nonneg (l : list R) : Forall (fun v => 0 <= v) l -> 0 <= Np.sum l.
Proof.
  unfold Np.sum. induction 1 as [| a l Ha _ IH]; simpl; lra.
Qed.

Lemma sum_le {A : Type} (f g : A -> R) (l : list A) :
  (forall a, In a l -> f a <= g a) ->
  Np.sum (map f l) <= Np.sum (map g l).
Proof.
  unfold Np.sum. induction l as [| a l IH]; simpl; intros H; [lra |].
  pose proof (H a (or_introl eq_refl)).
  assert (forall a0, In a0 l -> f a0 <= g a0) by (intros; apply H; right; assumption).
  specialize (IH H1). lra.
Qed.

Lemma sum_plus {A : Type} (f g : A -> R) (l : list A) :
  Np.sum (map (fun a => f a + g a) l) = Np.sum (map f l) + Np.sum (map g l).
Proof.
  unfold Np.sum. induction l as [| a l IH]; simpl; [lra | rewrite IH; lra].
Qed.

Lemma sum_scale {A : Type} (c : R) (f : A -> R) (l : list A) :
  Np.sum (map (fun a => c * f a) l) = c * Np.sum (map f l).
Proof.
  unfold Np.sum. induction l as [| a l IH]; simpl; [lra | rewrite IH; lra].
Qed.

Lemma sum_offset (c : R) (l : list R) :
  Np.sum (map (fun v => v + c) l) = Np.sum l + INR (length l) * c.
Proof.
  unfold Np.sum. induction l as [| a l IH]; [simpl; lra |].
  cbn [map fold_right length]. rewrite IH, S_INR. lra.
Qed.

Lemma mean_offset (c : R) (l : list R) :
  l <> [] -> Np.mean (map (fun v => v + c) l) = Np.mean l + c.
Proof.
  intros Hl. unfold Np.mean. rewrite sum_offset, length_map.
  assert (INR (length l) <> 0).
  { apply not_0_INR. destruct l; [contradiction | discriminate]. }
  field. assumption.
Qed.

Lemma centred_offset (c : R) (l : list R) :
  map (fun v => v - Np.mean (map (fun v => v + c) l)) (map (fun v => v + c) l)
  = map (fun v => v - Np.mean l) l.
Proof.
  destruct l as [| a l]; [reflexivity |].
  rewrite mean_offset by discriminate. rewrite map_map.
  apply map_ext. intros v. lra.
Qed.

(* ===================================================================== *)
(** ** The cross-correlator *)
(* ===================================================================== *)

(** X19: the correlator removes the mean of each signal first, so a constant
    added to either signal leaves its result as it is. *)
Theorem cross_correlation_ignores_offsets (x y : list R) (cx cy : R) (max_lag : Z) :
  Track.cross_correlation (map (fun v => v + cx) x) (map (fun v => v + cy) y) max_lag
  = Track.cross_correlation x y max_lag.
Proof.
  unfold Track.cross_correlation. rewrite !centred_offset. reflexivity.
Qed.

(** The values of the correlator inside the range of lags the full
    correlation has. *)
Lemma cross_correlation_values (x y : list R) (max_lag : Z) :
  length x = length y ->
  (0 <= max_lag < Z.of_nat (length x))%Z ->
  exists vals : list R,
    Track.cross_correlation x y max_lag
      = ret (vals, Np.arange (- max_lag) (max_lag + 1))
    /\ length vals = Z.to_nat (2 * max_lag + 1)
    /\ forall t : nat, (t < Z.to_nat (2 * max_lag + 1))%nat ->
         nth t vals 0
         = Np.sum (map (fun n =>
                          Np.getZ (map (fun v => v - Np.mean x) x)
                                  (Z.of_nat n + (Z.of_nat t - max_lag))
                          * nth n (map (fun v => v - Np.mean y) y) 0)
                       (seq 0 (length y))).
Proof.
  intros Hxy [HL0 HL].
  unfold Track.cross_correlation.
  set (xc := map (fun v => v - Np.mean x) x).
  set (yc := map (fun v => v - Np.mean y) y).
  assert (Hxc : length xc = length x) by apply length_map.
  assert (Hyc : length yc = length x) by (unfold yc; rewrite length_map; auto).
  rewrite correlate_full_inhabited by lia.
  set (f := fun m : nat => Np.sum _).
  unfold ret at 1. simpl bind.
  rewrite length_map, length_seq, Hxc, Hyc.
  set (N := length x) in *.
  assert (Hhalf : (Z.of_nat (N + N - 1) / 2 = Z.of_nat N - 1)%Z).
  { symmetry. apply Z.div_unique with (r := 1%Z); lia. }
  rewrite Hhalf.
  replace (Z.of_nat N - 1 + max_lag + 1)%Z
    with ((Z.of_nat N - 1 - max_lag) + (2 * max_lag + 1))%Z by lia.
  assert (Hlen : length (map f (seq 0 (N + N - 1))) = (N + N - 1)%nat)
    by (rewrite length_map, length_seq; reflexivity).
  eexists. split; [reflexivity |].
  split; [apply slice_inside_length; rewrite ?Hlen; lia |].
  intros t Ht.
  rewrite slice_inside_nth by (rewrite ?Hlen; lia).
  rewrite (nth_indep _ 0 (f 0%nat)) by (rewrite Hlen; lia).
  rewrite map_nth, seq_nth by lia. unfold f.
  rewrite Hyc, <- Hxy. f_equal. apply map_ext. intros n.
  f_equal. f_equal. lia.
Qed.

Lemma sum_telescope (G : nat -> R) (N : nat) :
  Np.sum (map (fun n => G (S n)) (seq 0 N)) + G 0%nat
  = Np.sum (map G (seq 0 N)) + G N.
Proof.
  induction N as [| N IH]; [simpl; lra |].
  rewrite seq_S, !map_app, !sum_app. simpl. lra.
Qed.

Lemma getZ_outside (a : list R) (k : Z) :
  (k < 0 \/ Z.of_nat (length a) <= k)%Z -> Np.getZ a k = 0.
Proof.
  intros H. unfold Np.getZ. destruct (Z.ltb_spec k 0); [reflexivity |].
  apply nth_overflow. lia.
Qed.

Lemma getZ_inside (a : list R) (n : nat) : Np.getZ a (Z.of_nat n) = nth n a 0.
Proof.
  unfold Np.getZ. destruct (Z.ltb_spec (Z.of_nat n) 0); [lia |].
  rewrite Nat2Z.id. reflexivity.
Qed.

Section Energy.

Variable a : list R.

(** Sum of the squares of the samples read at offset [k]. *)
Let shifted (k : Z) : R :=
  Np.sum (map (fun n => Np.getZ a (Z.of_nat n + k) * Np.getZ a (Z.of_nat n + k))
              (seq 0 (length a))).

Lemma shifted_up (k : Z) : (0 <= k)%Z -> shifted (k + 1) <= shifted k.
Proof.
  intros Hk. unfold shifted.
  pose proof (sum_telescope
                (fun n => Np.getZ a (Z.of_nat n + k) * Np.getZ a (Z.of_nat n + k))
                (length a)) as H.
  cbv beta in H.
  rewrite (getZ_outside a (Z.of_nat (length a) + k)) in H by lia.
  replace (map (fun n => Np.getZ a (Z.of_nat n + (k + 1)) * Np.getZ a (Z.of_nat n + (k + 1)))
               (seq 0 (length a)))
    with (map (fun n => Np.getZ a (Z.of_nat (S n) + k) * Np.getZ a (Z.of_nat (S n) + k))
              (seq 0 (length a))).
  - pose proof (Rle_0_sqr (Np.getZ a (Z.of_nat 0 + k))) as Hsq. unfold Rsqr in Hsq. lra.
  - apply map_ext. intros n.
    replace (Z.of_nat (S n) + k)%Z with (Z.of_nat n + (k + 1))%Z by lia. reflexivity.
Qed.

Lemma shifted_down (k : Z) : (k <= 0)%Z -> shifted (k - 1) <= shifted k.
Proof.
  intros Hk. unfold shifted.
  pose proof (sum_telescope
                (fun n => Np.getZ a (Z.of_nat n + (k - 1)) * Np.getZ a (Z.of_nat n + (k - 1)))
                (length a)) as H.
  cbv beta in H.
  rewrite (getZ_outside a (Z.of_nat 0 + (k - 1))) in H by lia.
  replace (map (fun n => Np.getZ a (Z.of_nat n + k) * Np.getZ a (Z.of_nat n + k))
               (seq 0 (length a)))
    with (map (fun n => Np.getZ a (Z.of_nat (S n) + (k - 1))
                        * Np.getZ a (Z.of_nat (S n) + (k - 1)))
              (seq 0 (length a))).
  - pose proof (Rle_0_sqr (Np.getZ a (Z.of_nat (length a) + (k - 1)))) as Hsq.
    unfold Rsqr in Hsq. lra.
  - apply map_ext. intros n.
    replace (Z.of_nat (S n) + (k - 1))%Z with (Z.of_nat n + k)%Z by lia. reflexivity.
Qed.

Lemma shifted_le (k : Z) : shifted k <= shifted 0.
Proof.
  destruct (Z.le_ge_cases 0 k) as [Hk | Hk].
  - rewrite <- (Z2Nat.id k Hk). induction (Z.to_nat k) as [| j IH]; [apply Rle_refl |].
    rewrite Nat2Z.inj_succ. unfold Z.succ.
    pose proof (shifted_up (Z.of_nat j) (Nat2Z.is_nonneg j)). lra.
  - replace k with (- Z.of_nat (Z.to_nat (- k)))%Z by lia.
    induction (Z.to_nat (- k)) as [| j IH]; [apply Rle_refl |].
    rewrite Nat2Z.inj_succ.
    replace (- Z.succ (Z.of_nat j))%Z with (- Z.of_nat j - 1)%Z by lia.
    pose proof (shifted_down (- Z.of_nat j) ltac:(lia)). lra.
Qed.

(** The correlation of [a] with itself at lag [k]. *)
Let autocorr (k : Z) : R :=
  Np.sum (map (fun n => Np.getZ a (Z.of_nat n + k) * nth n a 0) (seq 0 (length a))).

Lemma autocorr_zero : autocorr 0 = shifted 0.
Proof.
  unfold autocorr, shifted. f_equal. apply map_ext. intros n.
  rewrite Z.add_0_r, getZ_inside. reflexivity.
Qed.

Lemma autocorr_le (k : Z) : autocorr k <= autocorr 0.
Proof.
  rewrite autocorr_zero.
  assert (H : autocorr k
              <= Np.sum (map (fun n =>
                   / 2 * (Np.getZ a (Z.of_nat n + k) * Np.getZ a (Z.of_nat n + k))
                   + / 2 * (Np.getZ a (Z.of_nat n + 0) * Np.getZ a (Z.of_nat n + 0)))
                 (seq 0 (length a)))).
  { unfold autocorr. apply sum_le. intros n _.
    rewrite Z.add_0_r, getZ_inside.
    pose proof (Rle_0_sqr (Np.getZ a (Z.of_nat n + k) - nth n a 0)) as Hsq.
    unfold Rsqr in Hsq. lra. }
  rewrite sum_plus, !sum_scale in H.
  fold (shifted k) in H. fold (shifted 0) in H.
  pose proof (shifted_le k). lra.
Qed.

End Energy.

(** X20: a signal correlated with itself is largest at lag zero: no returned
    value exceeds the one at index [max_lag], which is the sum of the
    squares of the mean-centred samples. *)
Theorem self_correlation_peaks_at_zero_lag (x : list R) (max_lag : Z) :
  (0 <= max_lag < Z.of_nat (length x))%Z ->
  exists vals lags,
    Track.cross_correlation x x max_lag = ret (vals, lags)
    /\ nth (Z.to_nat max_lag) lags 1%Z = 0%Z
    /\ nth (Z.to_nat max_lag) vals 0
       = Np.sum (map (fun v => (v - Np.mean x) * (v - Np.mean x)) x)
    /\ forall t : nat, (t < length vals)%nat ->
         nth t vals 0 <= nth (Z.to_nat max_lag) vals 0.
Proof.
  intros HL.
  destruct (cross_correlation_values x x max_lag eq_refl HL) as (vals & Hrun & Hlen & Hval).
  exists vals, (Np.arange (- max_lag) (max_lag + 1)).
  set (xc := map (fun v => v - Np.mean x) x) in *.
  assert (Hn : length xc = length x) by apply length_map.
  assert (Hpeak : nth (Z.to_nat max_lag) vals 0
                  = Np.sum (map (fun n => Np.getZ xc (Z.of_nat n + 0) * nth n xc 0)
                                (seq 0 (length xc)))).
  { rewrite Hval by lia. rewrite Hn. f_equal. apply map_ext. intros n.
    do 2 f_equal. lia. }
  split; [exact Hrun |]. split; [| split].
  - rewrite (nth_indep _ 1%Z 0%Z) by (rewrite arange_length; lia).
    rewrite arange_nth by lia. lia.
  - rewrite Hpeak. unfold xc at 3. rewrite <- (map_map (fun v => v - Np.mean x)
                                             (fun w => w * w)).
    fold xc. clear. generalize xc. intros l.
    transitivity (Np.sum (map (fun n => nth n l 0 * nth n l 0) (seq 0 (length l)))).
    + f_equal. apply map_ext. intros n. rewrite Z.add_0_r, getZ_inside. reflexivity.
    + f_equal. induction l as [| b l IH]; [reflexivity |].
      cbn [length seq map nth]. f_equal. rewrite <- seq_shift, map_map. exact IH.
  - intros t Ht. rewrite Hpeak, Hval by lia. rewrite <- Hn.
    apply (autocorr_le xc).
Qed.

Lemma self_correlation_peaks_at_zero_lag_witness :
  exists vals lags,
    Track.cross_correlation [1; 2; 3] [1; 2; 3] 1 = ret (vals, lags)
    /\ nth 0 vals 0 <= nth 1 vals 0
    /\ nth 2 vals 0 <= nth 1 vals 0.
Proof.
  destruct (self_correlation_peaks_at_zero_lag [1; 2; 3] 1)
    as (vals & lags & Hrun & _ & _ & Hle).
  - simpl. lia.
  - exists vals, lags. split; [exact Hrun |].
    assert (Hlen : length vals = 3%nat).
    { unfold Track.cross_correlation in Hrun. cbn in Hrun.
      injection Hrun as <- _. reflexivity. }
    split; apply Hle; rewrite Hlen; lia.
Defined.

(* ===================================================================== *)
(** ** Runs of the orchestrator *)
(* ===================================================================== *)

Lemma mapM_exists {A B : Type} (f : A -> result B) (l : list A) :
  (forall a, In a l -> exists b, f a = inr b) -> exists bs, mapM f l = inr bs.
Proof.
  induction l as [| a l IH]; simpl; intros H.
  - eexists. reflexivity.
  - destruct (H a (or_introl eq_refl)) as (b & Hb).
    destruct IH as (bs & Hbs); [intros; apply H; right; assumption |].
    rewrite Hb, Hbs. eexists. reflexivity.
Qed.

Lemma window_inside (T time_window overlap i : Z) :
  (overlap < time_window)%Z -> (time_window <= T)%Z ->
  (0 <= i < (T - time_window) / (time_window - overlap) + 1)%Z ->
  (0 <= i * (time_window - overlap))%Z
  /\ (i * (time_window - overlap) + time_window <= T)%Z.
Proof.
  intros Hov HT [Hi0 Hi].
  assert (Hq : ((T - time_window) / (time_window - overlap) * (time_window - overlap)
                <= T - time_window)%Z).
  { rewrite Z.mul_comm. apply Z.mul_div_le. lia. }
  split; nia.
Qed.

Lemma slices_length (rows : list (list R)) (T s w : Z) :
  Forall (fun row => Z.of_nat (length row) = T) rows ->
  (0 <= s)%Z -> (0 <= w)%Z -> (s + w <= T)%Z ->
  Forall (fun x => length x = Z.to_nat w)
         (map (fun row => Np.slice row s (s + w)) rows).
Proof.
  intros Hrows Hs Hw He. induction Hrows as [| row rows Hrow _ IH]; simpl; constructor.
  - apply slice_inside_length; lia.
  - exact IH.
Qed.

Section Run.

Variable localize : list R -> list (list R) -> result (list R).
Variable data : list (list R).
Variable distance_map : list (list R).
Variable sampling_rate : R.
Variable max_lag time_window overlap : Z.

Let T : Z := Track.shape1 data.

Hypothesis channels : data <> [].
Hypothesis rectangular : Forall (fun row => Z.of_nat (length row) = T) data.
Hypothesis lag_fits : (0 <= max_lag < time_window)%Z.
Hypothesis step_positive : (overlap < time_window)%Z.
Hypothesis window_fits : (time_window <= T)%Z.

Lemma window_rows (i : Z) :
  (0 <= i < (T - time_window) / (time_window - overlap) + 1)%Z ->
  Track.window_data data time_window overlap i <> []
  /\ Forall (fun w => length w = Z.to_nat time_window)
            (Track.window_data data time_window overlap i).
Proof.
  intros Hi. destruct (window_inside T time_window overlap i) as [Hs He]; try assumption.
  unfold Track.window_data. split.
  - destruct data; [contradiction | discriminate].
  - apply (slices_length data T); solve [assumption | lia].
Qed.

Lemma cc_matrix_returns (w : list (list R)) :
  Forall (fun wj => length wj = Z.to_nat time_window) w ->
  exists cc, Track.cc_matrix max_lag w = ret cc.
Proof.
  intros Hw. unfold Track.cc_matrix.
  destruct (Z.ltb_spec (max_lag * 2 + 1) 0); [lia |].
  apply mapM_exists. intros wj Hj.
  assert (H0 : length (hd [] w) = Z.to_nat time_window).
  { destruct w as [| w0 w']; [destruct Hj |]. inversion Hw; assumption. }
  assert (Hlj : length wj = Z.to_nat time_window)
    by (rewrite Forall_forall in Hw; apply Hw; assumption).
  destruct (cross_correlation_values (hd [] w) wj max_lag) as (vals & Hrun & Hlen & _);
    [congruence | lia |].
  rewrite Hrun. unfold ret, bind. cbn [fst]. unfold Track.assign_row.
  destruct (Z.eqb_spec (Z.of_nat (length vals)) (max_lag * 2 + 1)); [| lia].
  eexists. reflexivity.
Qed.

Hypothesis localizer_returns :
  forall w0, exists est, localize w0 distance_map = ret est.

Lemma window_step_returns (i : Z) (acc : Track.accumulators) :
  (0 <= i < (T - time_window) / (time_window - overlap) + 1)%Z ->
  exists acc',
    Track.window_step localize data distance_map max_lag time_window overlap i acc
    = ret acc'.
Proof.
  intros Hi. destruct (window_rows i Hi) as [Hne Hrows].
  unfold Track.window_step.
  destruct (cc_matrix_returns _ Hrows) as (cc & ->). unfold ret at 1. cbn [bind].
  destruct (Track.window_data data time_window overlap i) as [| w0 w]; [contradiction |].
  destruct (localizer_returns w0) as (est & ->). unfold ret at 1. cbn [bind].
  eexists. reflexivity.
Qed.

Lemma window_loop_returns (ws : list Z) (acc : Track.accumulators) :
  Forall (fun i => (0 <= i < (T - time_window) / (time_window - overlap) + 1)%Z) ws ->
  exists acc',
    Track.window_loop localize data distance_map max_lag time_window overlap ws acc
    = ret acc'.
Proof.
  intros Hws. revert acc. induction Hws as [| i ws Hi _ IH]; intros acc.
  - eexists. reflexivity.
  - cbn [Track.window_loop].
    destruct (window_step_returns i acc Hi) as (acc1 & ->). unfold ret at 1. cbn [bind].
    apply IH.
Qed.

Hypothesis rate_not_zero : sampling_rate <> 0.

(** X14: on a rectangular, non-empty waveform matrix whose windows fit, with a
    lag below the window length and a localizer that returns, the
    orchestrator returns a result, with one entry per scheduled window. *)
Theorem spatial_track_returns :
  exists r,
    Track.spatial_track localize data distance_map sampling_rate max_lag
      time_window overlap = ret r
    /\ Z.of_nat (length (Track.time r))
       = ((T - time_window) / (time_window - overlap) + 1)%Z
    /\ (1 <= length (Track.time r))%nat.
Proof.
  set (n := ((T - time_window) / (time_window - overlap) + 1)%Z).
  assert (Hq : (0 <= (T - time_window) / (time_window - overlap))%Z)
    by (apply Z.div_pos; lia).
  assert (Hn : Track.num_windows T time_window overlap = ret n).
  { unfold Track.num_windows, n.
    destruct (Z.eqb_spec (time_window - overlap) 0); [lia |].
    rewrite Z.quot_div_nonneg by lia. reflexivity. }
  destruct (window_loop_returns (Np.range n) Track.empty_acc) as (acc & Hacc).
  { apply Forall_forall. intros i Hi. unfold Np.range in Hi.
    apply in_map_iff in Hi as (k & <- & Hk). apply in_seq in Hk. fold n. lia. }
  unfold Track.spatial_track. fold T. rewrite Hn. unfold ret at 1. cbn [bind].
  destruct (Req_dec_T sampling_rate 0) as [? | _]; [contradiction |].
  unfold ret at 1. cbn [bind]. unfold Np.linspace.
  destruct (Z.ltb_spec n 0); [unfold n in *; lia |].
  unfold ret at 1. cbn [bind]. rewrite Hacc. unfold ret at 1. cbn [bind].
  eexists. split; [reflexivity |]. cbn [Track.time].
  rewrite linspace_nat_length. unfold n in *. split; lia.
Qed.

End Run.

Lemma spatial_track_returns_witness :
  exists r,
    Track.spatial_track Examples.one_param Examples.four_samples [] 1 1 2 1 = ret r
    /\ length (Track.time r) = 3%nat.
Proof.
  destruct (spatial_track_returns Examples.one_param Examples.four_samples [] 1 1 2 1)
    as (r & Hr & Hlen & _).
  - discriminate.
  - repeat constructor.
  - lia.
  - lia.
  - change (Track.shape1 Examples.four_samples) with 4%Z. lia.
  - intros w0. eexists. reflexivity.
  - lra.
  - exists r. split; [exact Hr |].
    change (Track.shape1 Examples.four_samples) with 4%Z in Hlen.
    change ((4 - 2) / (2 - 1) + 1)%Z with 3%Z in Hlen. lia.
Defined.

(** X17: neighbouring windows share [overlap] samples: the last [overlap]
    samples of window [i] are the first [overlap] samples of window
    [i + 1], channel by channel. *)
Theorem consecutive_windows_share_overlap (data : list (list R))
    (T time_window overlap i : Z) :
  Forall (fun row => Z.of_nat (length row) = T) data ->
  (0 <= overlap < time_window)%Z ->
  (0 <= i)%Z ->
  ((i + 1) * (time_window - overlap) + time_window <= T)%Z ->
  Forall2 (fun w w' =>
             forall k : nat, (k < Z.to_nat overlap)%nat ->
               nth (Z.to_nat (time_window - overlap) + k) w 0 = nth k w' 0)
          (Track.window_data data time_window overlap i)
          (Track.window_data data time_window overlap (i + 1)).
Proof.
  intros Hrows Hov Hi He. unfold Track.window_data.
  induction Hrows as [| row rows Hrow _ IH]; simpl; constructor; [| exact IH].
  intros k Hk.
  rewrite !slice_inside_nth by nia.
  f_equal. nia.
Qed.

Lemma consecutive_windows_share_overlap_witness :
  nth 1 (hd [] (Track.window_data Examples.four_samples 2 1 0)) 0
  = nth 0 (hd [] (Track.window_data Examples.four_samples 2 1 1)) 0.
Proof.
  pose proof (consecutive_windows_share_overlap Examples.four_samples 4 2 1 0) as H.
  assert (H' : Forall2 (fun w w' =>
                          forall k : nat, (k < Z.to_nat 1)%nat ->
                            nth (Z.to_nat (2 - 1) + k) w 0 = nth k w' 0)
                       (Track.window_data Examples.four_samples 2 1 0)
                       (Track.window_data Examples.four_samples 2 1 (0 + 1))).
  { apply H; try lia. repeat constructor. }
  inversion H' as [| w w' ws ws' Hk _ Hw Hw']. cbn [hd].
  apply (Hk 0%nat). simpl. lia.
Defined.

(* ===================================================================== *)
(** ** A lag beyond the window *)
(* ===================================================================== *)

Lemma wide_lag_slice_length (x y : list R) (max_lag : Z) (p : list R * list Z) :
  length x = length y -> (2 <= length x)%nat ->
  (Z.of_nat (length x) < max_lag)%Z ->
  Track.cross_correlation x y max_lag = ret p ->
  (2 <= length (fst p))%nat /\ (Z.of_nat (length (fst p)) < max_lag * 2 + 1)%Z.
Proof.
  intros Hxy HN HL. unfold Track.cross_correlation.
  rewrite correlate_full_inhabited by (rewrite length_map; lia).
  set (f := fun m : nat => Np.sum _).
  unfold ret at 1. cbn [bind]. rewrite !length_map, length_seq, <- Hxy.
  set (N := length x) in *.
  assert (Hhalf : (Z.of_nat (N + N - 1) / 2 = Z.of_nat N - 1)%Z).
  { symmetry. apply Z.div_unique with (r := 1%Z); lia. }
  rewrite Hhalf. intros Hp. injection Hp as <-. cbn [fst].
  unfold Np.slice, Np.slice_index. rewrite length_map, length_seq.
  destruct (Z.ltb_spec (Z.of_nat N - 1 - max_lag) 0); [| lia].
  destruct (Z.ltb_spec (Z.of_nat N - 1 + max_lag + 1) 0); [lia |].
  rewrite length_firstn, length_skipn, length_map, length_seq.
  lia.
Qed.

(** X16: a [max_lag] larger than the window length (of at least two samples)
    makes the run raise: the slice of the correlation is shorter than a row
    of [cc_matrix] and cannot be broadcast into it. *)
Theorem lag_beyond_window_raises localize (data : list (list R))
    (distance_map : list (list R)) (sampling_rate : R)
    (max_lag time_window overlap : Z) (row : list R) (rows : list (list R)) :
  data = row :: rows ->
  (2 <= time_window)%Z -> (overlap < time_window)%Z ->
  (time_window <= Z.of_nat (length row))%Z ->
  (time_window < max_lag)%Z ->
  sampling_rate <> 0 ->
  Track.spatial_track localize data distance_map sampling_rate max_lag
    time_window overlap
  = raise (ValueError "could not broadcast input array").
Proof.
  intros -> Htw Hov HT HL Hsr. unfold Track.spatial_track.
  change (Track.shape1 (row :: rows)) with (Z.of_nat (length row)).
  set (T := Z.of_nat (length row)) in *.
  assert (Hq : (0 <= (T - time_window) / (time_window - overlap))%Z)
    by (apply Z.div_pos; lia).
  unfold Track.num_windows.
  destruct (Z.eqb_spec (time_window - overlap) 0); [lia |].
  rewrite Z.quot_div_nonneg by lia. unfold ret at 1. cbn [bind].
  destruct (Req_dec_T sampling_rate 0) as [? | _]; [contradiction |].
  unfold ret at 1. cbn [bind]. unfold Np.linspace.
  destruct (Z.ltb_spec ((T - time_window) / (time_window - overlap) + 1) 0); [lia |].
  unfold ret at 1. cbn [bind].
  unfold Np.range.
  destruct (Z.to_nat ((T - time_window) / (time_window - overlap) + 1)) as [| m] eqn:Em;
    [lia |].
  cbn [seq map Track.window_loop Z.of_nat].
  unfold Track.window_step at 1, Track.cc_matrix, Track.window_data.
  destruct (Z.ltb_spec (max_lag * 2 + 1) 0); [lia |].
  cbn [map mapM hd].
  replace (0 * (time_window - overlap) + time_window)%Z with (0 + time_window)%Z by lia.
  rewrite Z.mul_0_l.
  set (w0 := Np.slice row 0 (0 + time_window)).
  assert (Hw0 : length w0 = Z.to_nat time_window)
    by (apply slice_inside_length; unfold T in *; lia).
  destruct (Track.cross_correlation w0 w0 max_lag) as [e | p] eqn:Hcc.
  - exfalso. unfold Track.cross_correlation in Hcc.
    rewrite correlate_full_inhabited in Hcc by (rewrite length_map; lia).
    discriminate Hcc.
  - destruct (wide_lag_slice_length w0 w0 max_lag p eq_refl) as [H2 Hlt];
      [lia | lia | exact Hcc |].
    cbn [bind]. unfold Track.assign_row.
    destruct (Z.eqb_spec (Z.of_nat (length (fst p))) (max_lag * 2 + 1)); [lia |].
    destruct (fst p) as [| c [| c' l]]; simpl in H2; try lia; reflexivity.
Qed.

Lemma lag_beyond_window_raises_witness :
  Track.spatial_track Examples.one_param Examples.four_samples [] 1 3 2 1
  = raise (ValueError "could not broadcast input array").
Proof.
  apply (lag_beyond_window_raises Examples.one_param Examples.four_samples [] 1 3 2 1
           [1; 2; 3; 4] []).
  - reflexivity.
  - lia.
  - lia.
  - simpl. lia.
  - lia.
  - lra.
Defined.

(* ===================================================================== *)
(** ** The objective of the localizer *)
(* ===================================================================== *)

Lemma sum_squares_nonneg (l : list R) : 0 <= Np.sum (map (fun v => v ^ 2) l).
Proof.
  apply sum_nonneg. apply Forall_forall. intros v Hv.
  apply in_map_iff in Hv as (u & <- & _). apply pow2_ge_0.
Qed.

(** X22: the objective reads only the first parameter, is never negative, and
    is refused by NumPy when the observed channel and the distance map
    have different numbers of entries, none of them 1. *)
Theorem objective_function_shape (p0 : R) (ps ps' source_signal : list R)
    (distance_map : list (list R)) :
  Track.objective_function (p0 :: ps) source_signal distance_map
  = Track.objective_function (p0 :: ps') source_signal distance_map
  /\ (forall v,
        Track.objective_function (p0 :: ps) source_signal distance_map = ret v ->
        0 <= v)
  /\ (length source_signal <> length distance_map ->
      length source_signal <> 1%nat -> length distance_map <> 1%nat ->
      Track.objective_function (p0 :: ps) source_signal distance_map
      = raise (ValueError "operands could not be broadcast together")).
Proof.
  split; [reflexivity |]. split.
  - unfold Track.objective_function, ret. intros v H. inv_bind H.
    injection H as <-. apply sum_squares_nonneg.
  - intros Hne Hs Hd. unfold Track.objective_function, Track.broadcast_sub.
    rewrite length_map.
    destruct (Nat.eqb_spec (length source_signal) (length distance_map)); [contradiction |].
    destruct source_signal as [| s0 [| s1 src]]; destruct distance_map as [| d0 [| d1 dm]];
      simpl in *; try contradiction; reflexivity.
Qed.

Lemma sum_ones (row : list R) :
  Np.sum (map (fun d => exp (- 0 * d)) row) = INR (length row).
Proof.
  unfold Np.sum. induction row as [| d row IH]; [reflexivity |].
  cbn [map fold_right length]. rewrite IH, S_INR.
  replace (- 0 * d) with 0 by ring. rewrite exp_0. ring.
Qed.

(** X23: at the zero vector the optimiser starts from, the predicted amplitude
    of every cell is the number of columns of the distance map, so the
    objective is the sum of the squared differences between the observed
    samples and that count. *)
Theorem objective_function_at_zero (ps source_signal : list R)
    (distance_map : list (list R)) (cols : nat) :
  length source_signal = length distance_map ->
  Forall (fun row => length row = cols) distance_map ->
  Track.objective_function (0 :: ps) source_signal distance_map
  = ret (Np.sum (map (fun s => (s - INR cols) ^ 2) source_signal)).
Proof.
  intros Hlen Hcols. unfold Track.objective_function, Track.broadcast_sub.
  rewrite length_map, Hlen, Nat.eqb_refl. unfold ret, bind. do 2 f_equal.
  revert source_signal Hlen.
  induction Hcols as [| row dm Hrow _ IH]; intros [| s src] Hlen;
    try discriminate Hlen; [reflexivity |].
  cbn [map combine fst snd]. rewrite sum_ones, Hrow.
  f_equal. apply IH. simpl in Hlen. lia.
Qed.

Lemma objective_function_at_zero_witness :
  Track.objective_function [0; 0] [1; 2] [[5; 6]; [7; 8]]
  = ret (Np.sum (map (fun s => (s - INR 2) ^ 2) [1; 2])).
Proof.
  apply (objective_function_at_zero [0] [1; 2] [[5; 6]; [7; 8]] 2).
  - reflexivity.
  - repeat constructor.
Defined.

(* ===================================================================== *)
(** ** The input checks of the distance engine *)
(* ===================================================================== *)

Lemma fold_min_in (l : list R) (a : R) : In (fold_left Rmin l a) (a :: l).
Proof.
  revert a. induction l as [| b l IH]; intros a; simpl; [auto |].
  destruct (IH (Rmin a b)) as [H | H]; [| auto].
  rewrite <- H. unfold Rmin. destruct (Rle_dec a b); auto.
Qed.

Lemma fold_max_in (l : list R) (a : R) : In (fold_left Rmax l a) (a :: l).
Proof.
  revert a. induction l as [| b l IH]; intros a; simpl; [auto |].
  destruct (IH (Rmax a b)) as [H | H]; [| auto].
  rewrite <- H. unfold Rmax. destruct (Rle_dec a b); auto.
Qed.

Lemma min_attained (l : list R) (m : R) : Np.min l = ret m -> In m l.
Proof.
  destruct l as [| a l]; [discriminate |]. intros H. injection H as <-.
  apply fold_min_in.
Qed.

Lemma max_attained (l : list R) (m : R) : Np.max l = ret m -> In m l.
Proof.
  destruct l as [| a l]; [discriminate |]. intros H. injection H as <-.
  apply fold_max_in.
Qed.

Lemma min_below (l : list R) (m v : R) : Np.min l = ret m -> In v l -> m <= v.
Proof.
  intros Hm Hv. destruct (min_of_inhabited l v Hv) as (m' & Hm' & Hle).
  rewrite Hm in Hm'. injection Hm' as <-. exact Hle.
Qed.

Lemma max_above (l : list R) (m v : R) : Np.max l = ret m -> In v l -> v <= m.
Proof.
  intros Hm Hv. destruct (max_of_inhabited l v Hv) as (m' & Hm' & Hle).
  rewrite Hm in Hm'. injection Hm' as <-. exact Hle.
Qed.

Lemma stations_inside_pass (stations : list (R * R)) (ext : R * R * R * R) :
  stations <> [] -> Forall (inside ext) stations ->
  Distance.stations_outside stations ext = ret false.
Proof.
  destruct ext as [[[xmin xmax] ymin] ymax]. intros Hne Hin.
  destruct stations as [| s0 stations]; [contradiction |].
  assert (H0 : In s0 (s0 :: stations)) by (left; reflexivity).
  destruct (min_of_inhabited (map fst (s0 :: stations)) (fst s0)) as (sxmin & E1 & _);
    [apply in_map; assumption |].
  destruct (max_of_inhabited (map fst (s0 :: stations)) (fst s0)) as (sxmax & E2 & _);
    [apply in_map; assumption |].
  destruct (min_of_inhabited (map snd (s0 :: stations)) (snd s0)) as (symin & E3 & _);
    [apply in_map; assumption |].
  destruct (max_of_inhabited (map snd (s0 :: stations)) (snd s0)) as (symax & E4 & _);
    [apply in_map; assumption |].
  rewrite Forall_forall in Hin.
  assert (B1 : xmin <= sxmin).
  { apply min_attained in E1. apply in_map_iff in E1 as (s & <- & Hs).
    specialize (Hin s Hs). unfold inside in Hin. lra. }
  assert (B2 : sxmax <= xmax).
  { apply max_attained in E2. apply in_map_iff in E2 as (s & <- & Hs).
    specialize (Hin s Hs). unfold inside in Hin. lra. }
  assert (B3 : ymin <= symin).
  { apply min_attained in E3. apply in_map_iff in E3 as (s & <- & Hs).
    specialize (Hin s Hs). unfold inside in Hin. lra. }
  assert (B4 : symax <= ymax).
  { apply max_attained in E4. apply in_map_iff in E4 as (s & <- & Hs).
    specialize (Hin s Hs). unfold inside in Hin. lra. }
  unfold Distance.stations_outside. rewrite E1. unfold ret at 1. cbn [bind].
  destruct (Rlt_dec sxmin xmin); [lra |].
  rewrite E2. unfold ret at 1. cbn [bind].
  destruct (Rgt_dec sxmax xmax); [lra |].
  rewrite E3. unfold ret at 1. cbn [bind].
  destruct (Rlt_dec symin ymin); [lra |].
  rewrite E4. unfold ret at 1. cbn [bind].
  destruct (Rgt_dec symax ymax); [lra |]. reflexivity.
Qed.

Lemma stations_outside_inr (stations : list (R * R)) (ext : R * R * R * R) :
  Distance.stations_outside stations ext = ret false ->
  Forall (inside ext) stations.
Proof.
  destruct ext as [[[xmin xmax] ymin] ymax].
  unfold Distance.stations_outside, ret. intros H.
  inv_bind H. destruct (Rlt_dec v xmin); [discriminate H |].
  inv_bind H. destruct (Rgt_dec v0 xmax); [discriminate H |].
  inv_bind H. destruct (Rlt_dec v1 ymin); [discriminate H |].
  inv_bind H. destruct (Rgt_dec v2 ymax); [discriminate H |].
  apply Forall_forall. intros s Hs. unfold inside.
  pose proof (min_below _ _ (fst s) E (in_map fst _ _ Hs)).
  pose proof (max_above _ _ (fst s) E0 (in_map fst _ _ Hs)).
  pose proof (min_below _ _ (snd s) E1 (in_map snd _ _ Hs)).
  pose proof (max_above _ _ (snd s) E2 (in_map snd _ _ Hs)).
  lra.
Qed.

(** A rectangle within another one. *)
Lemma aoi_within_pass (a ext : R * R * R * R) :
  Distance.aoi_outside a ext = false
  <-> (let '(a0, a1, a2, a3) := a in
       let '(xmin, xmax, ymin, ymax) := ext in
       xmin <= a0 /\ a1 <= xmax /\ ymin <= a2 /\ a3 <= ymax).
Proof.
  destruct a as [[[a0 a1] a2] a3], ext as [[[xmin xmax] ymin] ymax].
  unfold Distance.aoi_outside.
  destruct (Rlt_dec a0 xmin), (Rgt_dec a1 xmax), (Rlt_dec a2 ymin), (Rgt_dec a3 ymax);
    split; intros H; try discriminate H; try reflexivity; lra.
Qed.





(** X3: an AOI that reaches beyond the extent of the DEM makes the call raise
    the AOI [ValueError], once the DEM and the stations have passed their
    checks. *)
Theorem aoi_beyond_extent_raises (stations : list (R * R))
    (dem : Distance.DatasetReader) (topography maps matrix : bool)
    (a0 a1 a2 a3 xmin xmax ymin ymax : R) :
  Distance.isnan_any dem = false ->
  Distance.extent dem = ret (xmin, xmax, ymin, ymax) ->
  stations <> [] ->
  Forall (inside (xmin, xmax, ymin, ymax)) stations ->
  a0 < xmin \/ xmax < a1 \/ a2 < ymin \/ ymax < a3 ->
  Distance.spatial_distance stations (Distance.Dataset dem) topography maps matrix
    (Some (a0, a1, a2, a3))
  = raise (ValueError "AOI extent is beyond DEM extent!").
Proof.
  intros Hnan Hext Hne Hin Hout. unfold Distance.spatial_distance.
  rewrite Hnan, Hext. unfold ret at 1. cbn [bind].
  rewrite stations_inside_pass by assumption. unfold ret at 1. cbn [bind].
  cbv zeta. cbn [Distance.aoi_ext_of].
  destruct (Distance.aoi_outside (a0, a1, a2, a3) (xmin, xmax, ymin, ymax)) eqn:E;
    [reflexivity |].
  apply aoi_within_pass in E. lra.
Qed.

Lemma aoi_beyond_extent_raises_witness :
  Distance.spatial_distance Examples.two_stations (Distance.Dataset Examples.strip)
    true true true (Some (0, 5, 0, 0))
  = raise (ValueError "AOI extent is beyond DEM extent!").
Proof.
  apply (aoi_beyond_extent_raises Examples.two_stations Examples.strip true true true
           0 5 0 0 0 4 0 0).
  - reflexivity.
  - exact strip_extent.
  - discriminate.
  - repeat constructor; simpl; lra.
  - lra.
Defined.




(* ===================================================================== *)
(** ** Clipping *)
(* ===================================================================== *)


Lemma clipped_length (line ground : list R) :
  length ground = length line -> length (Spec.clipped line ground) = length line.
Proof.
  intros H. unfold Spec.clipped. rewrite length_map, length_combine. lia.
Qed.

Lemma clipped_nth (line ground : list R) (k : nat) :
  length ground = length line -> (k < length line)%nat ->
  nth k (Spec.clipped line ground) 0 = Rmin (nth k line 0) (nth k ground 0).
Proof.
  intros Hlen Hk. unfold Spec.clipped.
  rewrite (nth_indep _ 0 (Rmin (fst (0, 0)) (snd (0, 0))))
    by (rewrite length_map, length_combine; lia).
  rewrite (map_nth (fun lg => Rmin (fst lg) (snd lg))), combine_nth by lia.
  reflexivity.
Qed.

Lemma terrain_nth (dem : Distance.DatasetReader) (p q : R * R) (n k : nat) :
  (k < n)%nat ->
  nth k (Spec.terrain dem (Spec.sample_points p q n)) 0
  = Distance.elevation dem (nth k (Np.linspace_nat (fst p) (fst q) n) 0)
                           (nth k (Np.linspace_nat (snd p) (snd q) n) 0).
Proof.
  intros Hk. rewrite <- combine_linspace. unfold Spec.terrain.
  set (g := fun pt : R * R => Distance.elevation dem (fst pt) (snd pt)).
  rewrite (nth_indep _ 0 (g (0, 0)))
    by (rewrite length_map, length_combine, !linspace_nat_length; lia).
  rewrite map_nth, combine_nth by (rewrite !linspace_nat_length; reflexivity).
  reflexivity.
Qed.

Lemma line_profile_length (z0 z1 : R) (n : nat) :
  length (Spec.line_profile z0 z1 n) = n.
Proof. unfold Spec.line_profile. rewrite length_map, length_seq. reflexivity. Qed.

Lemma terrain_length (dem : Distance.DatasetReader) (p q : R * R) (n : nat) :
  length (Spec.terrain dem (Spec.sample_points p q n)) = n.
Proof. unfold Spec.terrain. rewrite length_map, sample_points_length. reflexivity. Qed.

(** X5: with the topography correction on, no value of the profile lies above
    the terrain at its sample point, nor above the straight line it was
    clipped from. *)
Theorem clipped_profile_below_terrain (dem : Distance.DatasetReader)
    (line_length : R) (p q : R * R) (xs ys z_dir : list R) :
  Distance.profile dem true line_length p q = ret (xs, ys, z_dir) ->
  length xs = length z_dir /\ length ys = length z_dir
  /\ exists line,
       Distance.profile dem false line_length p q = ret (xs, ys, line)
       /\ length line = length z_dir
       /\ forall k : nat, (k < length z_dir)%nat ->
            nth k z_dir 0 <= Distance.elevation dem (nth k xs 0) (nth k ys 0)
            /\ nth k z_dir 0 <= nth k line 0.
Proof.
  intros H. apply profile_inr in H as (Hres & Hn & H).
  unfold profile_of in H. injection H as -> -> ->.
  set (n := Spec.sample_count line_length (fst (Distance.res dem))).
  set (line := Spec.line_profile _ _ n).
  assert (Hl : length (Spec.clipped line (Spec.terrain dem (Spec.sample_points p q n))) = n).
  { rewrite clipped_length; unfold line; rewrite ?terrain_length, line_profile_length;
      reflexivity. }
  rewrite !linspace_nat_length, Hl. split; [reflexivity |]. split; [reflexivity |].
  exists line. split; [| split].
  - rewrite profile_total by assumption. reflexivity.
  - apply line_profile_length.
  - intros k Hk.
    rewrite clipped_nth
      by (unfold line; rewrite ?terrain_length, line_profile_length; solve [reflexivity | lia]).
    rewrite terrain_nth by assumption.
    split; [apply Rmin_r | apply Rmin_l].
Qed.

Lemma clipped_profile_below_terrain_witness :
  exists xs ys z_dir,
    Distance.profile Examples.strip true 4 (0, 0) (4, 0) = ret (xs, ys, z_dir)
    /\ nth 1 z_dir 0 <= Distance.elevation Examples.strip (nth 1 xs 0) (nth 1 ys 0).
Proof.
  assert (Hrun : Distance.profile Examples.strip true 4 (0, 0) (4, 0)
                 = ret (profile_of Examples.strip true 4 (0, 0) (4, 0))).
  { apply profile_total; [simpl; lra |].
    apply round_nonneg. simpl. lra. }
  destruct (profile_of Examples.strip true 4 (0, 0) (4, 0)) as [[xs ys] z_dir] eqn:E.
  destruct (clipped_profile_below_terrain _ _ _ _ xs ys z_dir Hrun)
    as (Hx & _ & line & _ & _ & Hk).
  exists xs, ys, z_dir. split; [exact Hrun |].
  apply Hk. rewrite <- Hx.
  unfold profile_of in E. injection E as <- _ _. rewrite linspace_nat_length.
  unfold Spec.sample_count. cbn [Examples.strip Distance.res fst].
  replace (4 / 1) with (IZR 4) by lra. rewrite round_IZR. simpl. lia.
Defined.



(* ===================================================================== *)
(** ** How many samples a pair gets *)
(* ===================================================================== *)

Lemma floor_below (r : R) (z : Z) : r < IZR z -> (Np.floor r < z)%Z.
Proof.
  intros H. destruct (floor_bounds r) as [H1 _].
  apply lt_IZR. lra.
Qed.

Lemma floor_above (r : R) (z : Z) : IZR z <= r -> (z <= Np.floor r)%Z.
Proof.
  intros H. destruct (floor_bounds r) as [_ H2].
  assert (H' : IZR z < IZR (Np.floor r + 1)) by (rewrite plus_IZR; lra).
  apply lt_IZR in H'. lia.
Qed.

Lemma round_near (r : R) : 0 <= r -> r < 3 / 2 -> (Np.round r <= 1)%Z.
Proof.
  intros H0 H1.
  pose proof (floor_nonneg r H0) as Hf0.
  assert (Hf1 : (Np.floor r < 2)%Z) by (apply floor_below; lra).
  unfold Np.round.
  destruct (Rlt_dec (r - IZR (Np.floor r)) (1 / 2)) as [Hd | Hd]; [lia |].
  assert (Hf : Np.floor r = 0%Z).
  { destruct (Z.eq_dec (Np.floor r) 1) as [E | E]; [| lia].
    rewrite E in Hd. lra. }
  rewrite Hf. destruct (Rlt_dec _ _); simpl; lia.
Qed.

Lemma round_far (r : R) : 3 / 2 <= r -> (2 <= Np.round r)%Z.
Proof.
  intros H.
  assert (Hf : (1 <= Np.floor r)%Z) by (apply floor_above; lra).
  destruct (floor_bounds r) as [Hb1 Hb2].
  unfold Np.round.
  destruct (Z.eq_dec (Np.floor r) 1) as [E | E].
  - rewrite E in *.
    destruct (Rlt_dec (r - 1) (1 / 2)); [lra |].
    destruct (Rlt_dec (1 / 2) (r - 1)); [lia |]. simpl. lia.
  - destruct (Rlt_dec _ _); [lia |]. destruct (Rlt_dec _ _); [lia |].
    destruct (Z.even _); lia.
Qed.

Lemma sample_count_near (d cell_size : R) :
  0 <= d -> 0 < cell_size -> d / cell_size < 3 / 2 ->
  Spec.sample_count d cell_size = 1%nat.
Proof.
  intros Hd Hc Hr. unfold Spec.sample_count.
  pose proof (round_quotient_nonneg d cell_size Hd Hc).
  assert (Hq : 0 <= d / cell_size).
  { unfold Rdiv. apply Rmult_le_pos; [assumption |]. left.
    apply Rinv_0_lt_compat. assumption. }
  pose proof (round_near (d / cell_size) Hq Hr). lia.
Qed.

Lemma sample_count_far (d cell_size : R) :
  3 / 2 <= d / cell_size -> (2 <= Spec.sample_count d cell_size)%nat.
Proof.
  intros Hr. unfold Spec.sample_count.
  pose proof (round_far (d / cell_size) Hr). lia.
Qed.

Lemma excursion_short (zs : list R) : (length zs <= 1)%nat -> Spec.excursion zs = 0.
Proof.
  destruct zs as [| a [| b zs]]; simpl; intros H; try reflexivity. lia.
Qed.

Lemma planar_code (p q : R * R) :
  sqrt ((fst p - fst q) ^ 2 + (snd p - snd q) ^ 2) = Spec.d_xy p q.
Proof. unfold Spec.d_xy. f_equal. ring. Qed.

(* ===================================================================== *)
(** ** Bounds on the two distances *)
(* ===================================================================== *)

(** X8: a map value is never below the planar distance between the station
    and the cell centre. *)
Theorem map_value_at_least_planar (dem : Distance.DatasetReader) (topography : bool)
    (xy_stat xy_cell : R * R) (d : R) :
  Distance.cell_distance dem topography xy_stat xy_cell = ret d ->
  sqrt ((fst xy_stat - fst xy_cell) ^ 2 + (snd xy_stat - snd xy_cell) ^ 2) <= d.
Proof.
  intros H. apply cell_distance_inr in H. subst d.
  rewrite planar_code. unfold Spec.map_distance.
  rewrite <- (sqrt_square (Spec.d_xy xy_stat xy_cell)) at 1 by apply d_xy_nonneg.
  apply sqrt_le_1_alt.
  pose proof (Rle_0_sqr (Spec.excursion (Spec.z_profile dem topography xy_stat xy_cell)))
    as Hsq.
  unfold Rsqr in Hsq. lra.
Qed.

Lemma map_value_at_least_planar_witness :
  exists d,
    Distance.cell_distance Examples.strip true (0, 0) (4, 0) = ret d
    /\ sqrt ((0 - 4) ^ 2 + (0 - 0) ^ 2) <= d.
Proof.
  assert (Hrun : Distance.cell_distance Examples.strip true (0, 0) (4, 0)
                 = ret (Spec.map_distance Examples.strip true (0, 0) (4, 0))).
  { apply cell_distance_total; [simpl; lra |].
    apply round_quotient_nonneg; [apply d_xy_nonneg | simpl; lra]. }
  eexists. split; [exact Hrun |].
  apply (map_value_at_least_planar Examples.strip true (0, 0) (4, 0) _ Hrun).
Defined.

(** X10: a pair closer than one and a half cell sizes gets a single sample:
    its map value is the planar distance and its matrix entry is 0,
    whatever the terrain. *)
Theorem near_pair_has_one_sample (dem : Distance.DatasetReader) (topography : bool)
    (p q : R * R) (zp zq : R) :
  0 < fst (Distance.res dem) ->
  Spec.d_xy p q / fst (Distance.res dem) < 3 / 2 ->
  Distance.cell_distance dem topography p q = ret (Spec.d_xy p q)
  /\ Distance.station_path dem topography (fst p, snd p, zp) (fst q, snd q, zq) = ret 0.
Proof.
  intros Hres Hnear.
  assert (Hn : (0 <= Np.round (Spec.d_xy p q / fst (Distance.res dem)))%Z)
    by (apply round_quotient_nonneg; [apply d_xy_nonneg | assumption]).
  assert (Hone : length (Spec.samples dem p q) = 1%nat).
  { unfold Spec.samples. rewrite sample_points_length.
    apply sample_count_near; [apply d_xy_nonneg | assumption | assumption]. }
  split.
  - rewrite cell_distance_total by (assumption || lra).
    unfold Spec.map_distance.
    rewrite excursion_short by (rewrite z_profile_length; lia).
    rewrite Rmult_0_l, Rplus_0_r, sqrt_square by apply d_xy_nonneg. reflexivity.
  - rewrite station_path_total by (assumption || lra).
    unfold Spec.matrix_distance.
    rewrite polyline_short; [reflexivity |].
    rewrite length_combine, z_profile_length. lia.
Qed.

Lemma near_pair_has_one_sample_witness :
  Distance.cell_distance Examples.strip true (0, 0) (1, 0) = ret (Spec.d_xy (0, 0) (1, 0))
  /\ Distance.station_path Examples.strip true (0, 0, 0) (1, 0, -1) = ret 0.
Proof.
  assert (Hd : Spec.d_xy (0, 0) (1, 0) = 1).
  { unfold Spec.d_xy. cbn [fst snd].
    replace ((1 - 0) * (1 - 0) + (0 - 0) * (0 - 0)) with (1 * 1) by ring.
    apply sqrt_square. lra. }
  apply (near_pair_has_one_sample Examples.strip true (0, 0) (1, 0) 0 (-1)).
  - simpl. lra.
  - rewrite Hd. simpl. lra.
Defined.

(* ===================================================================== *)
(** ** Evenly spaced points on a straight line *)
(* ===================================================================== *)

Lemma polyline_steps (g : nat -> R * R * R) (c : R) (s m : nat) :
  (forall k, Spec.dist3 (g k) (g (S k)) = c) ->
  Spec.polyline_length (map g (seq s m)) = INR (m - 1) * c.
Proof.
  intros Hstep. revert s. induction m as [| [| m] IH]; intros s.
  - simpl. ring.
  - simpl. ring.
  - change (Spec.dist3 (g s) (g (S s)) + Spec.polyline_length (map g (seq (S s) (S m)))
            = INR (S (S m) - 1) * c).
    rewrite Hstep, IH.
    replace (S (S m) - 1)%nat with (S (S m - 1)) by lia. rewrite S_INR. ring.
Qed.

Lemma excursion_steps (g : nat -> R) (c : R) (s m : nat) :
  (forall k, g (S k) - g k = c) ->
  Spec.excursion (map g (seq s m)) = INR (m - 1) * Rabs c.
Proof.
  intros Hstep. revert s. induction m as [| [| m] IH]; intros s.
  - simpl. ring.
  - simpl. ring.
  - change (Rabs (g (S s) - g s) + Spec.excursion (map g (seq (S s) (S m)))
            = INR (S (S m) - 1) * Rabs c).
    rewrite Hstep, IH.
    replace (S (S m) - 1)%nat with (S (S m - 1)) by lia. rewrite S_INR. ring.
Qed.

Lemma fraction_from_two (n k : nat) :
  (2 <= n)%nat -> Spec.fraction n k = INR k * / INR (n - 1).
Proof. intros Hn. unfold Spec.fraction. destruct n as [| [| n]]; try lia. reflexivity. Qed.

Lemma combine_maps {A B C : Type} (f : A -> B) (g : A -> C) (l : list A) :
  combine (map f l) (map g l) = map (fun a => (f a, g a)) l.
Proof. induction l as [| a l IH]; simpl; [reflexivity | rewrite IH; reflexivity]. Qed.

Lemma scaled_norm (h vx vy vz : R) :
  0 <= h ->
  sqrt (h * vx * (h * vx) + h * vy * (h * vy) + h * vz * (h * vz))
  = h * sqrt (vx * vx + vy * vy + vz * vz).
Proof.
  intros Hh.
  replace (h * vx * (h * vx) + h * vy * (h * vy) + h * vz * (h * vz))
    with (h * h * (vx * vx + vy * vy + vz * vz)) by ring.
  rewrite sqrt_mult; [| nra | nra].
  rewrite sqrt_square by assumption. reflexivity.
Qed.

Lemma straight_polyline (p q : R * R) (z0 z1 : R) (n : nat) :
  (2 <= n)%nat ->
  Spec.polyline_length (combine (Spec.sample_points p q n) (Spec.line_profile z0 z1 n))
  = sqrt ((fst q - fst p) * (fst q - fst p) + (snd q - snd p) * (snd q - snd p)
          + (z1 - z0) * (z1 - z0)).
Proof.
  intros Hn. unfold Spec.sample_points, Spec.line_profile. rewrite combine_maps.
  assert (Hpos : 0 < INR (n - 1)) by (apply lt_0_INR; lia).
  rewrite (polyline_steps _ (/ INR (n - 1)
             * sqrt ((fst q - fst p) * (fst q - fst p) + (snd q - snd p) * (snd q - snd p)
                     + (z1 - z0) * (z1 - z0)))).
  - field. lra.
  - intros k. unfold Spec.dist3. rewrite !fraction_from_two by assumption.
    rewrite S_INR.
    rewrite <- scaled_norm by (left; apply Rinv_0_lt_compat; assumption).
    f_equal. field. lra.
Qed.

Lemma straight_excursion (z0 z1 : R) (n : nat) :
  (2 <= n)%nat -> Spec.excursion (Spec.line_profile z0 z1 n) = Rabs (z1 - z0).
Proof.
  intros Hn. unfold Spec.line_profile.
  assert (Hpos : 0 < INR (n - 1)) by (apply lt_0_INR; lia).
  rewrite (excursion_steps _ (/ INR (n - 1) * (z1 - z0))).
  - rewrite Rabs_mult, (Rabs_right (/ INR (n - 1))).
    + field. lra.
    + apply Rle_ge. left. apply Rinv_0_lt_compat. assumption.
  - intros k. rewrite !fraction_from_two by assumption. rewrite S_INR. field. lra.
Qed.

(** X11: without the topography correction, a pair at least one and a half cell
    sizes apart gets the straight-line distance in space between its two
    end points, in the map and in the matrix alike. *)
Theorem uncorrected_distance_is_straight_line (dem : Distance.DatasetReader)
    (p q : R * R) (zp zq : R) :
  0 < fst (Distance.res dem) ->
  3 / 2 <= Spec.d_xy p q / fst (Distance.res dem) ->
  let dz := Distance.elevation dem (fst q) (snd q)
            - Distance.elevation dem (fst p) (snd p) in
  let straight := sqrt ((fst q - fst p) * (fst q - fst p)
                        + (snd q - snd p) * (snd q - snd p) + dz * dz) in
  Distance.cell_distance dem false p q = ret straight
  /\ Distance.station_path dem false (fst p, snd p, zp) (fst q, snd q, zq)
     = ret straight.
Proof.
  intros Hres Hfar dz straight.
  assert (Hn : (0 <= Np.round (Spec.d_xy p q / fst (Distance.res dem)))%Z)
    by (apply round_quotient_nonneg; [apply d_xy_nonneg | assumption]).
  pose proof (sample_count_far _ _ Hfar) as Htwo.
  split.
  - rewrite cell_distance_total by (assumption || lra).
    unfold Spec.map_distance, Spec.z_profile, Spec.samples.
    rewrite sample_points_length, straight_excursion by assumption.
    rewrite d_xy_sqr. fold dz. unfold straight. do 2 f_equal.
    unfold Rabs. destruct (Rcase_abs dz); ring.
  - rewrite station_path_total by (assumption || lra).
    unfold Spec.matrix_distance, Spec.z_profile, Spec.samples.
    rewrite sample_points_length, straight_polyline by assumption. reflexivity.
Qed.

Lemma uncorrected_distance_is_straight_line_witness :
  Distance.cell_distance Examples.strip false (1, 0) (4, 0)
  = ret (sqrt ((4 - 1) * (4 - 1) + (0 - 0) * (0 - 0) + (0 - -1) * (0 - -1)))
  /\ Distance.station_path Examples.strip false (1, 0, -1) (4, 0, 0)
     = ret (sqrt ((4 - 1) * (4 - 1) + (0 - 0) * (0 - 0) + (0 - -1) * (0 - -1))).
Proof.
  assert (Hd : Spec.d_xy (1, 0) (4, 0) = 3).
  { unfold Spec.d_xy. cbn [fst snd].
    replace ((4 - 1) * (4 - 1) + (0 - 0) * (0 - 0)) with (3 * 3) by ring.
    apply sqrt_square. lra. }
  pose proof (uncorrected_distance_is_straight_line Examples.strip (1, 0) (4, 0) (-1) 0)
    as H.
  cbn [fst snd Examples.strip Distance.res Distance.elevation] in H.
  destruct (Rle_dec (1 / 2) 1) as [_ | F]; [| exfalso; lra].
  destruct (Rlt_dec 1 (3 / 2)) as [_ | F]; [| exfalso; lra].
  destruct (Rle_dec (1 / 2) 4) as [_ | F]; [| exfalso; lra].
  destruct (Rlt_dec 4 (3 / 2)) as [F | _]; [exfalso; lra |].
  apply H; [lra | rewrite Hd; lra].
Defined.

Lemma polyline_above_flat (pts : list (R * R)) (zs : list R) :
  length zs = length pts ->
  Spec.polyline_length (combine pts (map (fun _ => 0) pts))
  <= Spec.polyline_length (combine pts zs).
Proof.
  revert zs. induction pts as [| a [| b l] IH]; intros zs Hlen.
  - simpl. lra.
  - destruct zs as [| za [| zb zs]]; simpl; lra.
  - destruct zs as [| za [| zb zs]]; try discriminate Hlen.
    specialize (IH (zb :: zs) ltac:(simpl in *; lia)).
    change (Spec.dist3 (a, 0) (b, 0)
            + Spec.polyline_length (combine (b :: l) (map (fun _ => 0) (b :: l)))
            <= Spec.dist3 (a, za) (b, zb)
               + Spec.polyline_length (combine (b :: l) (zb :: zs))).
    assert (Spec.dist3 (a, 0) (b, 0) <= Spec.dist3 (a, za) (b, zb)).
    { destruct a as [xa ya], b as [xb yb]. unfold Spec.dist3.
      apply sqrt_le_1_alt.
      pose proof (Rle_0_sqr (zb - za)) as Hsq. unfold Rsqr in Hsq. lra. }
    lra.
Qed.

(** X9: a matrix entry of a pair at least one and a half cell sizes apart is
    never below the planar distance of the two stations. *)
Theorem matrix_entry_at_least_planar (dem : Distance.DatasetReader)
    (topography : bool) (p q : R * R) (zp zq d : R) :
  3 / 2 <= Spec.d_xy p q / fst (Distance.res dem) ->
  Distance.station_path dem topography (fst p, snd p, zp) (fst q, snd q, zq) = ret d ->
  sqrt ((fst q - fst p) ^ 2 + (snd q - snd p) ^ 2) <= d.
Proof.
  intros Hfar H. apply station_path_inr in H. subst d.
  pose proof (sample_count_far _ _ Hfar) as Htwo.
  unfold Spec.matrix_distance.
  set (pts := Spec.samples dem p q).
  set (zs := Spec.z_profile dem topography p q).
  assert (Hlen : length zs = length pts) by apply z_profile_length.
  assert (Hflat : Spec.polyline_length (combine pts (map (fun _ => 0) pts))
                  = sqrt ((fst q - fst p) ^ 2 + (snd q - snd p) ^ 2)).
  { unfold pts, Spec.samples, Spec.sample_points.
    set (n := Spec.sample_count _ _) in *.
    rewrite map_map, combine_maps.
    assert (Hpos : 0 < INR (n - 1)) by (apply lt_0_INR; lia).
    rewrite (polyline_steps _ (/ INR (n - 1)
               * sqrt ((fst q - fst p) * (fst q - fst p)
                       + (snd q - snd p) * (snd q - snd p) + 0 * 0))).
    - replace ((fst q - fst p) ^ 2 + (snd q - snd p) ^ 2)
        with ((fst q - fst p) * (fst q - fst p) + (snd q - snd p) * (snd q - snd p) + 0 * 0)
        by ring.
      field. lra.
    - intros k. unfold Spec.dist3. rewrite !fraction_from_two by assumption.
      rewrite S_INR.
      rewrite <- scaled_norm by (left; apply Rinv_0_lt_compat; assumption).
      f_equal. field. lra. }
  rewrite <- Hflat. apply polyline_above_flat. exact Hlen.
Qed.

Lemma matrix_entry_at_least_planar_witness :
  exists d,
    Distance.station_path Examples.strip true (0, 0, 0) (4, 0, 0) = ret d
    /\ sqrt ((4 - 0) ^ 2 + (0 - 0) ^ 2) <= d.
Proof.
  assert (Hrun : Distance.station_path Examples.strip true (0, 0, 0) (4, 0, 0)
                 = ret (Spec.matrix_distance Examples.strip true (0, 0) (4, 0))).
  { apply (station_path_total Examples.strip true (0, 0) (4, 0) 0 0); [simpl; lra |].
    apply round_quotient_nonneg; [apply d_xy_nonneg | simpl; lra]. }
  eexists. split; [exact Hrun |].
  apply (matrix_entry_at_least_planar Examples.strip true (0, 0) (4, 0) 0 0 _);
    [| exact Hrun].
  rewrite strip_d_xy. simpl. lra.
Defined.

(* ===================================================================== *)
(** ** Walking a segment in the other direction *)
(* ===================================================================== *)

Lemma d_xy_sym (p q : R * R) : Spec.d_xy p q = Spec.d_xy q p.
Proof. unfold Spec.d_xy. f_equal. ring. Qed.

Lemma rev_map_seq {A : Type} (g : nat -> A) (n : nat) :
  rev (map g (seq 0 n)) = map (fun k => g (n - 1 - k)%nat) (seq 0 n).
Proof.
  induction n as [| n IH]; [reflexivity |].
  transitivity (g n :: rev (map g (seq 0 n))).
  { rewrite seq_S, map_app, rev_app_distr. reflexivity. }
  rewrite IH. cbn [seq map]. f_equal.
  - f_equal. lia.
  - rewrite <- seq_shift, map_map. apply map_ext. intros k. f_equal. lia.
Qed.

Lemma fraction_rev (n k : nat) :
  (2 <= n)%nat -> (k < n)%nat ->
  Spec.fraction n (n - 1 - k) = 1 - Spec.fraction n k.
Proof.
  intros Hn Hk. rewrite !fraction_from_two by assumption.
  rewrite minus_INR by lia.
  assert (INR (n - 1) <> 0) by (apply not_0_INR; lia).
  field. assumption.
Qed.

Lemma sample_points_rev (p q : R * R) (n : nat) :
  (2 <= n)%nat -> Spec.sample_points q p n = rev (Spec.sample_points p q n).
Proof.
  intros Hn. unfold Spec.sample_points. rewrite rev_map_seq.
  apply map_ext_in. intros k Hk. apply in_seq in Hk.
  rewrite fraction_rev by lia. f_equal; ring.
Qed.

Lemma line_profile_rev (z0 z1 : R) (n : nat) :
  (2 <= n)%nat -> Spec.line_profile z1 z0 n = rev (Spec.line_profile z0 z1 n).
Proof.
  intros Hn. unfold Spec.line_profile. rewrite rev_map_seq.
  apply map_ext_in. intros k Hk. apply in_seq in Hk.
  rewrite fraction_rev by lia. ring.
Qed.

Lemma combine_snoc {A B : Type} (a : list A) (b : list B) (x : A) (y : B) :
  length a = length b ->
  combine (a ++ [x]) (b ++ [y]) = combine a b ++ [(x, y)].
Proof.
  revert b. induction a as [| a0 a IH]; intros [| b0 b] H; try discriminate H.
  - reflexivity.
  - simpl. rewrite IH by (simpl in H; lia). reflexivity.
Qed.

Lemma combine_rev {A B : Type} (a : list A) (b : list B) :
  length a = length b -> combine (rev a) (rev b) = rev (combine a b).
Proof.
  revert b. induction a as [| a0 a IH]; intros [| b0 b] H; try discriminate H.
  - reflexivity.
  - simpl. rewrite combine_snoc by (rewrite !length_rev; simpl in H; lia).
    rewrite IH by (simpl in H; lia). reflexivity.
Qed.

Lemma clipped_rev (line ground : list R) :
  length line = length ground ->
  Spec.clipped (rev line) (rev ground) = rev (Spec.clipped line ground).
Proof.
  intros H. unfold Spec.clipped. rewrite combine_rev by assumption. apply map_rev.
Qed.

Lemma dist3_sym (a b : R * R * R) : Spec.dist3 a b = Spec.dist3 b a.
Proof.
  destruct a as [[xa ya] za], b as [[xb yb] zb]. unfold Spec.dist3. f_equal. ring.
Qed.

Lemma polyline_snoc (l : list (R * R * R)) (x a : R * R * R) :
  Spec.polyline_length ((l ++ [x]) ++ [a])
  = Spec.polyline_length (l ++ [x]) + Spec.dist3 x a.
Proof.
  induction l as [| b [| c l] IH].
  - simpl. ring.
  - simpl. ring.
  - change (Spec.dist3 b c + Spec.polyline_length (((c :: l) ++ [x]) ++ [a])
            = Spec.dist3 b c + Spec.polyline_length ((c :: l) ++ [x]) + Spec.dist3 x a).
    rewrite IH. ring.
Qed.

Lemma polyline_rev (l : list (R * R * R)) :
  Spec.polyline_length (rev l) = Spec.polyline_length l.
Proof.
  induction l as [| a [| b l] IH]; try reflexivity.
  change (Spec.polyline_length ((rev l ++ [b]) ++ [a])
          = Spec.dist3 a b + Spec.polyline_length (b :: l)).
  rewrite polyline_snoc. change (rev l ++ [b]) with (rev (b :: l)).
  rewrite IH, (dist3_sym b a). ring.
Qed.

Lemma excursion_snoc (l : list R) (x a : R) :
  Spec.excursion ((l ++ [x]) ++ [a]) = Spec.excursion (l ++ [x]) + Rabs (a - x).
Proof.
  induction l as [| b [| c l] IH].
  - simpl. ring.
  - simpl. ring.
  - change (Rabs (c - b) + Spec.excursion (((c :: l) ++ [x]) ++ [a])
            = Rabs (c - b) + Spec.excursion ((c :: l) ++ [x]) + Rabs (a - x)).
    rewrite IH. ring.
Qed.

Lemma excursion_rev (l : list R) : Spec.excursion (rev l) = Spec.excursion l.
Proof.
  induction l as [| a [| b l] IH]; try reflexivity.
  change (Spec.excursion ((rev l ++ [b]) ++ [a])
          = Rabs (b - a) + Spec.excursion (b :: l)).
  rewrite excursion_snoc. change (rev l ++ [b]) with (rev (b :: l)).
  rewrite IH, (Rabs_minus_sym a b). ring.
Qed.

Section BothWays.

Variable dem : Distance.DatasetReader.
Variable topography : bool.
Variables p q : R * R.

Let n : nat := Spec.sample_count (Spec.d_xy p q) (fst (Distance.res dem)).

Lemma samples_rev : (2 <= n)%nat -> Spec.samples dem q p = rev (Spec.samples dem p q).
Proof.
  intros Hn. unfold Spec.samples. rewrite (d_xy_sym q p). fold n.
  apply sample_points_rev. exact Hn.
Qed.

Lemma z_profile_rev :
  (2 <= n)%nat -> Spec.z_profile dem topography q p = rev (Spec.z_profile dem topography p q).
Proof.
  intros Hn. unfold Spec.z_profile. rewrite samples_rev by assumption.
  rewrite length_rev. unfold Spec.samples. fold n. rewrite sample_points_length.
  rewrite line_profile_rev by assumption. destruct topography; [| reflexivity].
  unfold Spec.terrain. rewrite map_rev. apply clipped_rev.
  rewrite line_profile_length, length_map, sample_points_length. reflexivity.
Qed.

Lemma samples_count : length (Spec.samples dem p q) = n.
Proof. unfold Spec.samples. apply sample_points_length. Qed.

Lemma samples_count_back : length (Spec.samples dem q p) = n.
Proof. unfold Spec.samples. rewrite (d_xy_sym q p). apply sample_points_length. Qed.

Lemma matrix_distance_sym :
  Spec.matrix_distance dem topography q p = Spec.matrix_distance dem topography p q.
Proof.
  unfold Spec.matrix_distance.
  destruct (le_lt_dec 2 n) as [Hn | Hn].
  - rewrite samples_rev, z_profile_rev by assumption.
    rewrite combine_rev by (rewrite z_profile_length; reflexivity).
    apply polyline_rev.
  - rewrite !polyline_short; [reflexivity | |];
      rewrite length_combine, z_profile_length, ?samples_count, ?samples_count_back; lia.
Qed.

Lemma map_distance_sym :
  Spec.map_distance dem topography q p = Spec.map_distance dem topography p q.
Proof.
  assert (Hz : Spec.excursion (Spec.z_profile dem topography q p)
               = Spec.excursion (Spec.z_profile dem topography p q)).
  { destruct (le_lt_dec 2 n) as [Hn | Hn].
    - rewrite z_profile_rev by assumption. apply excursion_rev.
    - rewrite !excursion_short; [reflexivity | |];
        rewrite z_profile_length, ?samples_count, ?samples_count_back; lia. }
  unfold Spec.map_distance. rewrite (d_xy_sym q p), Hz. reflexivity.
Qed.

End BothWays.

(** X12: in exact arithmetic the returned matrix is symmetric: walking the
    segment from station [j] to station [i] visits the same sample points
    in the opposite order, so its clipped profile is the reverse and its
    length the same. *)
Theorem returned_matrix_is_symmetric (stations : list (R * R))
    (dem : Distance.DatasetReader) (topography maps : bool)
    (aoi : option (R * R * R * R)) (r : Distance.distances) :
  Distance.spatial_distance stations (Distance.Dataset dem) topography maps true aoi
  = ret r ->
  exists M,
    Distance.matrix r = Some M
    /\ forall i j : nat,
         (i < length stations)%nat -> (j < length stations)%nat ->
         nth j (nth i M []) 0 = nth i (nth j M []) 0.
Proof.
  intros H. apply spatial_distance_inr in H as (ext & _ & _ & _ & _ & ->).
  eexists. split; [reflexivity |].
  intros i j Hi Hj. rewrite !matrix_entry by assumption.
  apply matrix_distance_sym.
Qed.

Lemma returned_matrix_is_symmetric_witness :
  exists r M,
    Distance.spatial_distance Examples.two_stations (Distance.Dataset Examples.strip)
      true true true (Some Examples.three_cells) = ret r
    /\ Distance.matrix r = Some M
    /\ nth 1 (nth 0 M []) 0 = nth 0 (nth 1 M []) 0.
Proof.
  destruct (returned_matrix_is_symmetric _ _ _ _ _ _ (strip_run true true true))
    as (M & HM & Hsym).
  eexists. exists M. split; [apply strip_run |]. split; [exact HM |].
  apply Hsym; simpl; lia.
Defined.

(** X13: the map value is the same in both directions as well: a cell centre
    seen from a station and the station seen from that cell centre get the
    same value. *)
Theorem map_value_is_symmetric (dem : Distance.DatasetReader) (topography : bool)
    (p q : R * R) (d : R) :
  Distance.cell_distance dem topography p q = ret d ->
  Distance.cell_distance dem topography q p = ret d.
Proof.
  intros H.
  assert (Hd := cell_distance_inr _ _ _ _ _ H).
  rewrite cell_distance_code in H. unfold ret in H. inv_bind H.
  apply profile_inr in E as (Hres & Hn & _).
  rewrite cell_distance_total; [| assumption | rewrite <- d_xy_sym; assumption].
  rewrite (map_distance_sym dem topography p q), Hd. reflexivity.
Qed.

Lemma map_value_is_symmetric_witness :
  exists d,
    Distance.cell_distance Examples.strip true (0, 0) (4, 0) = ret d
    /\ Distance.cell_distance Examples.strip true (4, 0) (0, 0) = ret d.
Proof.
  assert (Hrun : Distance.cell_distance Examples.strip true (0, 0) (4, 0)
                 = ret (Spec.map_distance Examples.strip true (0, 0) (4, 0))).
  { apply cell_distance_total; [simpl; lra |].
    apply round_quotient_nonneg; [apply d_xy_nonneg | simpl; lra]. }
  eexists. split; [exact Hrun |].
  apply (map_value_is_symmetric Examples.strip true (0, 0) (4, 0) _ Hrun).
Defined.

(* ===================================================================== *)
(** ** Corrected against uncorrected distances *)
(* ===================================================================== *)

Lemma dist3_same (a : R * R * R) : Spec.dist3 a a = 0.
Proof.
  destruct a as [[x y] z]. unfold Spec.dist3.
  replace ((x - x) * (x - x) + (y - y) * (y - y) + (z - z) * (z - z)) with 0 by ring.
  apply sqrt_0.
Qed.

Lemma dist3_nonneg (a b : R * R * R) : 0 <= Spec.dist3 a b.
Proof. destruct a as [[xa ya] za], b as [[xb yb] zb]. apply sqrt_pos. Qed.

Lemma norm_triangle (u1 u2 u3 v1 v2 v3 : R) :
  sqrt ((u1 + v1) * (u1 + v1) + (u2 + v2) * (u2 + v2) + (u3 + v3) * (u3 + v3))
  <= sqrt (u1 * u1 + u2 * u2 + u3 * u3) + sqrt (v1 * v1 + v2 * v2 + v3 * v3).
Proof.
  set (U := u1 * u1 + u2 * u2 + u3 * u3).
  set (V := v1 * v1 + v2 * v2 + v3 * v3).
  assert (HU : 0 <= U) by (unfold U; nra).
  assert (HV : 0 <= V) by (unfold V; nra).
  pose proof (sqrt_pos U) as HA. pose proof (sqrt_pos V) as HB.
  pose proof (sqrt_sqrt U HU) as HA2. pose proof (sqrt_sqrt V HV) as HB2.
  set (A := sqrt U) in *. set (B := sqrt V) in *.
  set (S := u1 * v1 + u2 * v2 + u3 * v3).
  assert (HCS : S * S <= U * V).
  { unfold S, U, V.
    pose proof (Rle_0_sqr (u1 * v2 - u2 * v1)) as H1.
    pose proof (Rle_0_sqr (u1 * v3 - u3 * v1)) as H2.
    pose proof (Rle_0_sqr (u2 * v3 - u3 * v2)) as H3.
    unfold Rsqr in *. nra. }
  assert (HS : S <= A * B).
  { destruct (Rle_lt_dec S (A * B)) as [H | H]; [exact H | exfalso].
    assert (0 <= A * B) by (apply Rmult_le_pos; assumption).
    assert (A * B * (A * B) < S * S) by nra.
    assert (A * B * (A * B) = U * V) by (rewrite <- HA2, <- HB2; ring).
    lra. }
  rewrite <- (sqrt_square (A + B)) by lra.
  apply sqrt_le_1_alt.
  replace ((u1 + v1) * (u1 + v1) + (u2 + v2) * (u2 + v2) + (u3 + v3) * (u3 + v3))
    with (U + V + 2 * S) by (unfold U, V, S; ring).
  nra.
Qed.

Lemma dist3_triangle (a b c : R * R * R) :
  Spec.dist3 a c <= Spec.dist3 a b + Spec.dist3 b c.
Proof.
  destruct a as [[xa ya] za], b as [[xb yb] zb], c as [[xc yc] zc].
  unfold Spec.dist3.
  pose proof (norm_triangle (xb - xa) (yb - ya) (zb - za) (xc - xb) (yc - yb) (zc - zb)) as H.
  replace (xb - xa + (xc - xb)) with (xc - xa) in H by ring.
  replace (yb - ya + (yc - yb)) with (yc - ya) in H by ring.
  replace (zb - za + (zc - zb)) with (zc - za) in H by ring.
  exact H.
Qed.

Lemma polyline_ge_chord (l : list (R * R * R)) (d : R * R * R) :
  (1 <= length l)%nat ->
  Spec.dist3 (nth 0 l d) (nth (length l - 1) l d) <= Spec.polyline_length l.
Proof.
  induction l as [| a [| b l] IH]; intros Hl.
  - simpl in Hl. lia.
  - simpl. rewrite dist3_same. lra.
  - assert (IH' : Spec.dist3 b (nth (length l) (b :: l) d)
                  <= Spec.polyline_length (b :: l)).
    { pose proof (IH ltac:(simpl; lia)) as H0.
      replace (length (b :: l) - 1)%nat with (length l) in H0 by (simpl; lia).
      exact H0. }
    change (Spec.dist3 a (nth (length l) (b :: l) d)
            <= Spec.dist3 a b + Spec.polyline_length (b :: l)).
    pose proof (dist3_triangle a b (nth (length l) (b :: l) d)). lra.
Qed.

Lemma excursion_ge_chord (l : list R) (d : R) :
  (1 <= length l)%nat ->
  Rabs (nth (length l - 1) l d - nth 0 l d) <= Spec.excursion l.
Proof.
  induction l as [| a [| b l] IH]; intros Hl.
  - simpl in Hl. lia.
  - simpl. rewrite Rminus_diag, Rabs_R0. lra.
  - assert (IH' : Rabs (nth (length l) (b :: l) d - b) <= Spec.excursion (b :: l)).
    { pose proof (IH ltac:(simpl; lia)) as H0.
      replace (length (b :: l) - 1)%nat with (length l) in H0 by (simpl; lia).
      exact H0. }
    change (Rabs (nth (length l) (b :: l) d - a)
            <= Rabs (b - a) + Spec.excursion (b :: l)).
    pose proof (Rabs_triang (nth (length l) (b :: l) d - b) (b - a)) as Ht.
    replace (nth (length l) (b :: l) d - b + (b - a))
      with (nth (length l) (b :: l) d - a) in Ht by ring.
    lra.
Qed.

Section Ends.

Variable dem : Distance.DatasetReader.
Variables p q : R * R.
Variable n : nat.
Hypothesis two : (2 <= n)%nat.

Let zp : R := Distance.elevation dem (fst p) (snd p).
Let zq : R := Distance.elevation dem (fst q) (snd q).
Let pts : list (R * R) := Spec.sample_points p q n.
Let zs : list R := Spec.clipped (Spec.line_profile zp zq n) (Spec.terrain dem pts).

Lemma sample_point_nth (k : nat) (d : R * R) :
  (k < n)%nat ->
  nth k pts d = (fst p + Spec.fraction n k * (fst q - fst p),
                 snd p + Spec.fraction n k * (snd q - snd p)).
Proof.
  intros Hk. unfold pts, Spec.sample_points.
  set (g := fun k0 : nat => (_, _)).
  rewrite (nth_indep _ d (g 0%nat)) by (rewrite length_map, length_seq; lia).
  rewrite map_nth, seq_nth by lia. reflexivity.
Qed.

Lemma line_nth (z0 z1 : R) (k : nat) :
  (k < n)%nat ->
  nth k (Spec.line_profile z0 z1 n) 0 = z0 + Spec.fraction n k * (z1 - z0).
Proof.
  intros Hk. unfold Spec.line_profile.
  set (g := fun k0 : nat => _).
  rewrite (nth_indep _ 0 (g 0%nat)) by (rewrite length_map, length_seq; lia).
  rewrite map_nth, seq_nth by lia. reflexivity.
Qed.

Lemma zs_length : length zs = n.
Proof.
  unfold zs. rewrite clipped_length; unfold pts;
    rewrite ?terrain_length, line_profile_length; reflexivity.
Qed.

Lemma first_point : nth 0 pts (0, 0) = p.
Proof.
  rewrite sample_point_nth by lia. rewrite fraction_first.
  apply injective_projections; cbn [fst snd]; ring.
Qed.

Lemma last_point : nth (n - 1) pts (0, 0) = q.
Proof.
  rewrite sample_point_nth by lia.
  replace (Spec.fraction n (n - 1)) with 1.
  - apply injective_projections; cbn [fst snd]; ring.
  - destruct n as [| m]; [lia |]. replace (S m - 1)%nat with m by lia.
    symmetry. apply fraction_last. lia.
Qed.

Lemma terrain_point (k : nat) :
  (k < n)%nat ->
  nth k (Spec.terrain dem pts) 0
  = Distance.elevation dem (fst (nth k pts (0, 0))) (snd (nth k pts (0, 0))).
Proof.
  intros Hk. unfold Spec.terrain.
  set (g := fun pt : R * R => Distance.elevation dem (fst pt) (snd pt)).
  rewrite (nth_indep _ 0 (g (0, 0)))
    by (rewrite length_map; unfold pts; rewrite sample_points_length; lia).
  rewrite map_nth. reflexivity.
Qed.

Lemma first_height : nth 0 zs 0 = zp.
Proof.
  unfold zs. rewrite clipped_nth
    by (unfold pts; rewrite ?terrain_length, line_profile_length; solve [reflexivity | lia]).
  rewrite line_nth, terrain_point, first_point, fraction_first by lia.
  fold zp. rewrite Rmin_left; lra.
Qed.

Lemma last_height : nth (n - 1) zs 0 = zq.
Proof.
  unfold zs. rewrite clipped_nth
    by (unfold pts; rewrite ?terrain_length, line_profile_length; solve [reflexivity | lia]).
  rewrite line_nth, terrain_point, last_point by lia. fold zq.
  replace (Spec.fraction n (n - 1)) with 1.
  - rewrite Rmin_left; lra.
  - destruct n as [| m]; [lia |]. replace (S m - 1)%nat with m by lia.
    symmetry. apply fraction_last. lia.
Qed.

Lemma clipped_excursion_ge : Rabs (zq - zp) <= Spec.excursion zs.
Proof.
  pose proof (excursion_ge_chord zs 0) as H.
  rewrite zs_length, first_height, last_height in H. apply H. lia.
Qed.

Lemma clipped_polyline_ge :
  sqrt ((fst q - fst p) * (fst q - fst p) + (snd q - snd p) * (snd q - snd p)
        + (zq - zp) * (zq - zp))
  <= Spec.polyline_length (combine pts zs).
Proof.
  pose proof (polyline_ge_chord (combine pts zs) (0, 0, 0)) as H.
  assert (Hlen : length (combine pts zs) = n).
  { rewrite length_combine, zs_length. unfold pts. rewrite sample_points_length. lia. }
  rewrite Hlen in H.
  rewrite !combine_nth in H
    by (rewrite zs_length; unfold pts; rewrite sample_points_length; reflexivity).
  rewrite first_point, last_point, first_height, last_height in H.
  rewrite (surjective_pairing p), (surjective_pairing q) in H.
  apply H. lia.
Qed.

End Ends.

(** X7: the topography correction never shortens a distance: for every pair,
    the map value and the matrix entry computed with the correction are at
    least those computed without it. *)
Theorem correction_never_shortens (dem : Distance.DatasetReader)
    (p q : R * R) (zp zq : R) :
  0 < fst (Distance.res dem) ->
  exists plain_map corrected_map plain_path corrected_path,
    Distance.cell_distance dem false p q = ret plain_map
    /\ Distance.cell_distance dem true p q = ret corrected_map
    /\ plain_map <= corrected_map
    /\ Distance.station_path dem false (fst p, snd p, zp) (fst q, snd q, zq)
       = ret plain_path
    /\ Distance.station_path dem true (fst p, snd p, zp) (fst q, snd q, zq)
       = ret corrected_path
    /\ plain_path <= corrected_path.
Proof.
  intros Hres.
  assert (Hn : (0 <= Np.round (Spec.d_xy p q / fst (Distance.res dem)))%Z)
    by (apply round_quotient_nonneg; [apply d_xy_nonneg | assumption]).
  exists (Spec.map_distance dem false p q), (Spec.map_distance dem true p q),
         (Spec.matrix_distance dem false p q), (Spec.matrix_distance dem true p q).
  rewrite !cell_distance_total, !station_path_total by (assumption || lra).
  repeat split; try reflexivity.
  - unfold Spec.map_distance. apply sqrt_le_1_alt.
    assert (He : 0 <= Spec.excursion (Spec.z_profile dem false p q)
                 <= Spec.excursion (Spec.z_profile dem true p q)).
    { unfold Spec.z_profile, Spec.samples. rewrite sample_points_length.
      set (n := Spec.sample_count _ _).
      destruct (le_lt_dec 2 n) as [Htwo | Hone].
      - rewrite straight_excursion by assumption. split; [apply Rabs_pos |].
        apply clipped_excursion_ge. assumption.
      - rewrite !excursion_short; [lra | |].
        + rewrite clipped_length;
            rewrite ?terrain_length, line_profile_length; solve [reflexivity | lia].
        + rewrite line_profile_length. lia. }
    nra.
  - unfold Spec.matrix_distance, Spec.z_profile, Spec.samples.
    rewrite sample_points_length. set (n := Spec.sample_count _ _).
    destruct (le_lt_dec 2 n) as [Htwo | Hone].
    + rewrite straight_polyline by assumption.
      apply clipped_polyline_ge. assumption.
    + rewrite !polyline_short; [lra | |];
        rewrite length_combine, sample_points_length; lia.
Qed.

Lemma correction_never_shortens_witness :
  exists plain_map corrected_map,
    Distance.cell_distance Examples.strip false (0, 0) (4, 0) = ret plain_map
    /\ Distance.cell_distance Examples.strip true (0, 0) (4, 0) = ret corrected_map
    /\ plain_map <= corrected_map.
Proof.
  destruct (correction_never_shortens Examples.strip (0, 0) (4, 0) 0 0)
    as (pm & cm & _ & _ & H1 & H2 & H3 & _).
  - simpl. lra.
  - exists pm, cm. repeat split; assumption.
Defined.

(** X2: a returned result certifies its input: the DEM has no NaN and at least
    one cell, there is at least one station, every station lies within the
    extent of the cell centres and so does the AOI. *)
Theorem returned_result_certifies_input (stations : list (R * R))
    (dem : Distance.DatasetReader) (topography maps matrix : bool)
    (aoi : option (R * R * R * R)) (r : Distance.distances) :
  Distance.spatial_distance stations (Distance.Dataset dem) topography maps matrix aoi
  = ret r ->
  Distance.isnan_any dem = false
  /\ (0 < fst (Distance.shape dem) * snd (Distance.shape dem))%nat
  /\ stations <> []
  /\ exists xmin xmax ymin ymax,
       Distance.extent dem = ret (xmin, xmax, ymin, ymax)
       /\ Forall (inside (xmin, xmax, ymin, ymax)) stations
       /\ (forall a0 a1 a2 a3, aoi = Some (a0, a1, a2, a3) ->
             xmin <= a0 /\ a1 <= xmax /\ ymin <= a2 /\ a3 <= ymax).
Proof.
  intros H. apply spatial_distance_inr in H as (ext & Hnan & Hext & Hst & Haoi & _).
  split; [exact Hnan |]. split; [| split].
  - rewrite <- xy_dem_length. unfold Distance.extent in Hext.
    destruct (Distance.xy_dem dem); [discriminate Hext | simpl; lia].
  - intros ->. destruct ext as [[[xmin xmax] ymin] ymax]. discriminate Hst.
  - destruct ext as [[[xmin xmax] ymin] ymax]. exists xmin, xmax, ymin, ymax.
    split; [exact Hext |]. split; [apply stations_outside_inr; exact Hst |].
    intros a0 a1 a2 a3 ->. apply aoi_within_pass in Haoi. exact Haoi.
Qed.

Lemma returned_result_certifies_input_witness :
  Forall (inside (0, 4, 0, 0)) Examples.two_stations
  /\ Distance.isnan_any Examples.strip = false.
Proof.
  destruct (returned_result_certifies_input _ _ _ _ _ _ _ (strip_run true true true))
    as (Hnan & _ & _ & xmin & xmax & ymin & ymax & Hext & Hin & _).
  rewrite strip_extent in Hext. injection Hext as <- <- <- <-.
  split; assumption.
Defined.

(* ===================================================================== *)
(** ** A channel without variation *)
(* ===================================================================== *)

Lemma sum_repeat (c : R) (n : nat) : Np.sum (repeat c n) = INR n * c.
Proof.
  unfold Np.sum. induction n as [| n IH]; [simpl; ring |].
  cbn [repeat fold_right]. rewrite IH, S_INR. ring.
Qed.

Lemma centred_constant (c : R) (n k : nat) :
  nth k (map (fun v => v - Np.mean (repeat c n)) (repeat c n)) 0 = 0.
Proof.
  destruct (le_lt_dec n k) as [Hk | Hk].
  - apply nth_overflow. rewrite length_map, repeat_length. exact Hk.
  - rewrite (nth_indep _ 0 (c - Np.mean (repeat c n)))
      by (rewrite length_map, repeat_length; exact Hk).
    rewrite (map_nth (fun v => v - Np.mean (repeat c n))).
    rewrite nth_repeat. unfold Np.mean. rewrite sum_repeat, repeat_length.
    assert (INR n <> 0) by (apply not_0_INR; lia).
    field. assumption.
Qed.

Lemma sum_zeros {A : Type} (f : A -> R) (l : list A) :
  (forall a, f a = 0) -> Np.sum (map f l) = 0.
Proof.
  intros Hf. unfold Np.sum. induction l as [| a l IH]; simpl; [reflexivity |].
  rewrite Hf, IH. ring.
Qed.

(** X21: a channel that holds one value throughout correlates to zero with any
    signal at every lag, because its mean-centred samples are all zero. *)
Theorem constant_channel_correlates_to_zero (x : list R) (c : R) (max_lag : Z) :
  (0 <= max_lag < Z.of_nat (length x))%Z ->
  exists vals lags,
    Track.cross_correlation x (repeat c (length x)) max_lag = ret (vals, lags)
    /\ length vals = Z.to_nat (2 * max_lag + 1)
    /\ Forall (fun v => v = 0) vals.
Proof.
  intros HL.
  destruct (cross_correlation_values x (repeat c (length x)) max_lag)
    as (vals & Hrun & Hlen & Hval); [rewrite repeat_length; reflexivity | exact HL |].
  exists vals, (Np.arange (- max_lag) (max_lag + 1)).
  split; [exact Hrun |]. split; [exact Hlen |].
  apply Forall_forall. intros v Hv.
  apply (In_nth _ _ 0) in Hv as (t & Ht & <-).
  rewrite Hval by lia. apply sum_zeros. intros n.
  rewrite centred_constant. ring.
Qed.

Lemma constant_channel_correlates_to_zero_witness :
  exists vals lags,
    Track.cross_correlation [1; 2; 3] [5; 5; 5] 1 = ret (vals, lags)
    /\ Forall (fun v => v = 0) vals.
Proof.
  destruct (constant_channel_correlates_to_zero [1; 2; 3] 5 1)
    as (vals & lags & Hrun & _ & Hz).
  - simpl. lia.
  - exists vals, lags. split; [exact Hrun | exact Hz].
Defined.

(* ===================================================================== *)
(** ** What a returned tracking result says about its run *)
(* ===================================================================== *)

Section Amplitudes.

Variable localize : list R -> list (list R) -> result (list R).
Variable data : list (list R).
Variable distance_map : list (list R).
Variable max_lag time_window overlap : Z.

Let window (i : Z) : list R :=
  concat (Track.window_data data time_window overlap i).

Lemma window_step_checks (i : Z) (acc acc' : Track.accumulators) :
  Track.window_step localize data distance_map max_lag time_window overlap i acc
  = ret acc' ->
  data <> [] /\ (0 <= max_lag)%Z
  /\ Track.mean_amplitudes acc' = Track.mean_amplitudes acc ++ [Np.mean (window i)]
  /\ Track.sd_amplitudes acc' = Track.sd_amplitudes acc ++ [Np.std (window i)].
Proof.
  unfold Track.window_step, ret. intros H. inv_bind H.
  assert (HL : (0 <= max_lag)%Z).
  { unfold Track.cc_matrix in E.
    destruct (Z.ltb_spec (max_lag * 2 + 1) 0); [discriminate E | lia]. }
  unfold window.
  destruct (Track.window_data data time_window overlap i) as [| w0 w] eqn:Ew;
    [discriminate H |].
  inv_bind H. injection H as <-. cbn [Track.mean_amplitudes Track.sd_amplitudes].
  repeat split; try assumption; try reflexivity.
  intros ->. discriminate Ew.
Qed.

Lemma window_loop_amplitudes (ws : list Z) (acc acc' : Track.accumulators) :
  Track.window_loop localize data distance_map max_lag time_window overlap ws acc
  = ret acc' ->
  Track.mean_amplitudes acc'
  = Track.mean_amplitudes acc ++ map (fun i => Np.mean (window i)) ws
  /\ Track.sd_amplitudes acc'
     = Track.sd_amplitudes acc ++ map (fun i => Np.std (window i)) ws.
Proof.
  revert acc. induction ws as [| i ws IH]; intros acc H.
  - injection H as <-. rewrite !app_nil_r. split; reflexivity.
  - cbn [Track.window_loop] in H. inv_bind H.
    apply window_step_checks in E as (_ & _ & Hm & Hs).
    apply IH in H as (Hm' & Hs').
    rewrite Hm', Hs', Hm, Hs, <- !app_assoc. split; reflexivity.
Qed.

End Amplitudes.

(** X18: in a returned result, entry [i] of the amplitude mean (of the
    amplitude sd) is the mean (the standard deviation) of all samples of
    all channels in window [i]. *)
Theorem amplitude_statistics_per_window localize data distance_map sampling_rate
    max_lag time_window overlap (r : Track.results) :
  Track.spatial_track localize data distance_map sampling_rate max_lag
    time_window overlap = ret r ->
  exists n : Z,
    Track.num_windows (Track.shape1 data) time_window overlap = ret n
    /\ Track.a_0 (Track.mean r)
       = map (fun i => Np.mean (concat (Track.window_data data time_window overlap i)))
             (Np.range n)
    /\ Track.a_0 (Track.sd r)
       = map (fun i => Np.std (concat (Track.window_data data time_window overlap i)))
             (Np.range n).
Proof.
  unfold Track.spatial_track, ret. intros H.
  inv_bind H. inv_bind H. inv_bind H. inv_bind H. injection H as <-.
  apply window_loop_amplitudes in E2 as (Hm & Hs).
  exists v. cbn [Track.a_0 Track.mean Track.sd]. rewrite Hm, Hs.
  split; [exact E |]. split; reflexivity.
Qed.

Lemma amplitude_statistics_per_window_witness :
  exists r,
    Track.spatial_track Examples.one_param Examples.four_samples [] 1 0 2 1 = ret r
    /\ Track.a_0 (Track.mean r) = [Np.mean [1; 2]; Np.mean [2; 3]; Np.mean [3; 4]].
Proof.
  destruct three_windows_run as [r Hr]. exists r. split; [exact Hr |].
  destruct (amplitude_statistics_per_window _ _ _ _ _ _ _ r Hr) as (n & Hn & Hm & _).
  injection Hn as <-. rewrite Hm. reflexivity.
Defined.

(** X15: a returned tracking result certifies its input: [time_window] differs
    from [overlap] and the sampling rate is not zero; and if it holds at
    least one window, the data has a channel and [max_lag] is not
    negative. *)
Theorem returned_track_certifies_input localize data distance_map sampling_rate
    max_lag time_window overlap (r : Track.results) :
  Track.spatial_track localize data distance_map sampling_rate max_lag
    time_window overlap = ret r ->
  time_window <> overlap
  /\ sampling_rate <> 0
  /\ (Track.time r <> [] -> data <> [] /\ (0 <= max_lag)%Z).
Proof.
  unfold Track.spatial_track, ret. intros H.
  inv_bind H. inv_bind H. inv_bind H. inv_bind H. injection H as <-.
  split; [| split].
  - unfold Track.num_windows in E.
    destruct (Z.eqb_spec (time_window - overlap) 0); [discriminate E | lia].
  - destruct (Req_dec_T sampling_rate 0); [discriminate E0 | assumption].
  - cbn [Track.time]. intros Hne.
    unfold Np.linspace in E1. destruct (Z.ltb_spec v 0); [discriminate E1 |].
    injection E1 as <-.
    unfold Np.range in E2.
    destruct (Z.to_nat v) as [| m]; [exfalso; apply Hne; reflexivity |].
    cbn [seq map Track.window_loop] in E2. inv_bind E2.
    apply window_step_checks in E1 as (Hd & HL & _). split; assumption.
Qed.

Lemma returned_track_certifies_input_witness :
  exists r,
    Track.spatial_track Examples.one_param Examples.four_samples [] 1 0 2 1 = ret r
    /\ Examples.four_samples <> [].
Proof.
  destruct three_windows_run as [r Hr]. exists r. split; [exact Hr |].
  destruct (returned_track_certifies_input _ _ _ _ _ _ _ r Hr) as (_ & _ & H).
  apply H. apply spatial_track_inr in Hr as (n & ests & Hn & _ & _ & Ht & _).
  injection Hn as <-. rewrite Ht. discriminate.
Defined.
